(** * The stream manager of libcaf_core, embedded in Rocq

    Source: [src/libcaf_core/src/stream_manager.cpp], the base class
    [caf::stream_manager].  The manager owns the per-stream bookkeeping
    (pending handshakes, the two kinds of response promises, the registry of
    inbound paths) and talks to two collaborators: the outbound scatterer
    [out()] and the owning actor [self_].

    The embedding is a state-and-trace monad over the manager's fields.  Every
    call with an effect that the manager makes on a collaborator, on a
    response promise or on one of its own overridable member functions is
    recorded as an event, in program order.  Trace and debug logging is left
    out, and so are the member functions that need the slot allocator of the
    owning actor ([assign_next_slot], [assign_next_pending_slot] and
    [add_unsafe_outbound_path_impl]). *)

From Stdlib Require Import ZArith List Lia.
From stdpp Require Import base option list gmap strings sorting.

Local Open Scope Z_scope.

(** ** Data model *)

(** [stream_slot], actor handles and message ids are opaque integers for the
    manager.  The notations keep the key types of the maps syntactically
    equal to [N]. *)
Abbreviation stream_slot := N (only parsing).
Abbreviation actor_id := N (only parsing).
Abbreviation message_id := N (only parsing).

(** [strong_actor_ptr]: [None] is [nullptr]. *)
Abbreviation strong_actor_ptr := (option N) (only parsing).

(** [mailbox_element::forwarding_stack]. *)
Abbreviation forwarding_stack := (list (option N)) (only parsing).

(** [inbound_path*]: an address, [0] is [nullptr]. *)
Abbreviation inbound_path_ptr := N (only parsing).
Definition nullptr : inbound_path_ptr := 0%N.

(** [caf::error]; a default-constructed error is "no error". *)
Inductive error :=
  | no_error
  | make_error (what : string).

Global Instance error_eq_dec : EqDecision error.
Proof. solve_decision. Defined.

(** [caf::message], as far as the manager builds messages itself: [none]
    converted to a message, and [make_message(reason)]. *)
Inductive message :=
  | none
  | make_message (reason : error).

Global Instance message_eq_dec : EqDecision message.
Proof. solve_decision. Defined.

(** Modelled from the spec: [stream_priority], "an enumerated scheduling hint
    (e.g. normal/high)"; the enumeration is declared outside the sources. *)
Inductive stream_priority := normal | high.

Record stream_slots := mk_slots {
  sender : stream_slot;
  receiver : stream_slot;
}.

(** [stream_slots::invert]. *)
Definition invert (s : stream_slots) : stream_slots :=
  {| sender := receiver s; receiver := sender s |}.

(** [response_promise{self, source, stages, id}]. *)
Record response_promise := mk_promise {
  rp_self : actor_id;
  rp_source : strong_actor_ptr;
  rp_stages : forwarding_stack;
  rp_id : message_id;
}.

Global Instance response_promise_eq_dec : EqDecision response_promise.
Proof. solve_decision. Defined.

(** The mutable fields of an [outbound_path] the manager reads and writes,
    with the identity of the path.  The widths of the counters are declared
    outside this file; they are integers here. *)
Record outbound_path := mk_outbound_path {
  op_slots : stream_slots;
  op_hdl : strong_actor_ptr;
  open_credit : Z;
  desired_batch_size : Z;
  next_ack_id : Z;
}.

Definition set_open_credit (v : Z) (p : outbound_path) : outbound_path :=
  {| op_slots := op_slots p; op_hdl := op_hdl p; open_credit := v;
     desired_batch_size := desired_batch_size p;
     next_ack_id := next_ack_id p |}.

Definition set_desired_batch_size (v : Z) (p : outbound_path) : outbound_path :=
  {| op_slots := op_slots p; op_hdl := op_hdl p; open_credit := open_credit p;
     desired_batch_size := v; next_ack_id := next_ack_id p |}.

Definition set_next_ack_id (v : Z) (p : outbound_path) : outbound_path :=
  {| op_slots := op_slots p; op_hdl := op_hdl p; open_credit := open_credit p;
     desired_batch_size := desired_batch_size p; next_ack_id := v |}.

(** Upstream messages ([upstream_msg::ack_open] and friends). *)
Record ack_open := mk_ack_open {
  rebind_to : strong_actor_ptr;
  initial_demand : Z;
  ao_desired_batch_size : Z;
}.

Record ack_batch := mk_ack_batch {
  new_capacity : Z;
  ab_desired_batch_size : Z;
  acknowledged_id : Z;
}.

Record drop : Set := mk_drop { }.

Record forced_drop := mk_forced_drop { fd_reason : error }.

(** Downstream messages handled by the base class. *)
Record batch : Set := mk_batch { }.
Record close : Set := mk_close { }.
Record forced_close := mk_forced_close { fc_reason : error }.

(** [open_stream_msg{slot, msg, prev_stage, original_stage, priority}]. *)
Record open_stream_msg := mk_open_stream_msg {
  osm_slot : stream_slot;
  osm_msg : message;
  osm_prev_stage : actor_id;
  osm_original_stage : strong_actor_ptr;
  osm_priority : stream_priority;
}.

(** [make_mailbox_element(sender, id, stages, content)]. *)
Record mailbox_element := make_mailbox_element {
  me_sender : strong_actor_ptr;
  me_mid : message_id;
  me_stages : forwarding_stack;
  me_content : open_stream_msg;
}.

(** ** Observable events *)

Inductive event :=
  (* calls on the outbound scatterer, [out()] *)
  | OutAddPath (slots : stream_slots) (target : strong_actor_ptr)
  | OutRemovePath (slot : stream_slot) (reason : error) (flag : bool)
  | OutClose
  | OutAbort (reason : error)
  | OutEmitBatches
  (* what the scatterer sends to the remote ends of its paths *)
  | RemoteSignal (slot : stream_slot) (reason : error)
  | BatchesEmitted (credit_used : gmap N Z)
  (* calls on the owning actor, [self_] *)
  | EraseInboundPathsLater (reason : option error)
  | EraseInboundPathLater (slot : stream_slot) (reason : option error)
  | Enqueue (dest : actor_id) (what : mailbox_element)
  (* response promises and messages *)
  | MakeMessage (reason : error)
  | Deliver (p : response_promise) (m : message)
  (* the manager's own overridable member functions *)
  | Finalize (reason : error)
  | MakeFinalResult
  | MakeHandshake (slot : stream_slot)
  | GenerateMessages
  (* diagnostics *)
  | LogWarning (text : string)
  | LogError (text : string).

(** ** The outbound scatterer *)

(** Modelled from the spec: what [close()] and [abort(reason)] leave behind
    in the outbound scatterer. *)
Inductive scatterer_status :=
  | sc_running
  | sc_closed
  | sc_aborted (reason : error).

(** Modelled from the spec: the state of the outbound scatterer
    ([stream_scatterer], reached through [out()]), whose class is not part of
    the sources.  It holds the outbound paths by slot, whether it is a
    terminal, and whether it has been closed or aborted. *)
Record stream_scatterer := mk_scatterer {
  sc_paths : gmap N outbound_path;
  sc_terminal : bool;
  sc_status : scatterer_status;
}.

Definition set_sc_paths (ps : gmap N outbound_path) (sc : stream_scatterer)
  : stream_scatterer :=
  {| sc_paths := ps; sc_terminal := sc_terminal sc; sc_status := sc_status sc |}.

Definition set_sc_status (st : scatterer_status) (sc : stream_scatterer)
  : stream_scatterer :=
  {| sc_paths := sc_paths sc; sc_terminal := sc_terminal sc; sc_status := st |}.

(** ** The manager *)

(** The data members of [stream_manager].  [self_] is kept as the control
    identity of the owning actor ([self_->ctrl()]); [out_] is the scatterer
    behind [out()]. *)
Record stream_manager := mk_manager {
  self_ : actor_id;
  pending_handshakes_ : Z;
  priority_ : stream_priority;
  continuous_ : bool;
  inbound_paths_ : list N;
  promises_ : list response_promise;
  in_flight_promises_ : gmap N response_promise;
  out_ : stream_scatterer;
}.

Definition set_pending_handshakes (v : Z) (m : stream_manager) :=
  {| self_ := self_ m; pending_handshakes_ := v; priority_ := priority_ m;
     continuous_ := continuous_ m; inbound_paths_ := inbound_paths_ m;
     promises_ := promises_ m; in_flight_promises_ := in_flight_promises_ m;
     out_ := out_ m |}.

Definition set_inbound_paths (v : list N) (m : stream_manager) :=
  {| self_ := self_ m; pending_handshakes_ := pending_handshakes_ m;
     priority_ := priority_ m; continuous_ := continuous_ m;
     inbound_paths_ := v; promises_ := promises_ m;
     in_flight_promises_ := in_flight_promises_ m; out_ := out_ m |}.

Definition set_promises (v : list response_promise) (m : stream_manager) :=
  {| self_ := self_ m; pending_handshakes_ := pending_handshakes_ m;
     priority_ := priority_ m; continuous_ := continuous_ m;
     inbound_paths_ := inbound_paths_ m; promises_ := v;
     in_flight_promises_ := in_flight_promises_ m; out_ := out_ m |}.

Definition set_in_flight_promises (v : gmap N response_promise)
    (m : stream_manager) :=
  {| self_ := self_ m; pending_handshakes_ := pending_handshakes_ m;
     priority_ := priority_ m; continuous_ := continuous_ m;
     inbound_paths_ := inbound_paths_ m; promises_ := promises_ m;
     in_flight_promises_ := v; out_ := out_ m |}.

Definition set_out (v : stream_scatterer) (m : stream_manager) :=
  {| self_ := self_ m; pending_handshakes_ := pending_handshakes_ m;
     priority_ := priority_ m; continuous_ := continuous_ m;
     inbound_paths_ := inbound_paths_ m; promises_ := promises_ m;
     in_flight_promises_ := in_flight_promises_ m; out_ := v |}.

(** ** The monad: manager state, event trace, and the ways a call can go
    wrong *)

Inductive outcome (A : Type) :=
  | Done (a : A) (m : stream_manager) (trace : list event)
  | AssertionFailed (what : string)
  | Undefined
  | OutOfFuel.

Arguments Done {A} a m trace.
Arguments AssertionFailed {A} what.
Arguments Undefined {A}.
Arguments OutOfFuel {A}.

Definition M (A : Type) : Type := stream_manager -> outcome A.

Definition ret {A} (a : A) : M A := fun m => Done a m [].

Definition bind {A B} (c : M A) (f : A -> M B) : M B :=
  fun m =>
    match c m with
    | Done a m1 t1 =>
        match f a m1 with
        | Done b m2 t2 => Done b m2 (t1 ++ t2)
        | AssertionFailed w => AssertionFailed w
        | Undefined => Undefined
        | OutOfFuel => OutOfFuel
        end
    | AssertionFailed w => AssertionFailed w
    | Undefined => Undefined
    | OutOfFuel => OutOfFuel
    end.

Declare Scope manager_scope.
Delimit Scope manager_scope with mgr.
Bind Scope manager_scope with M.

Notation "x <- c1 ;; c2" := (bind c1 (fun x => c2))
  (at level 100, c1 at next level, right associativity) : manager_scope.
Notation "c1 ;; c2" := (bind c1 (fun _ => c2))
  (at level 100, right associativity) : manager_scope.

Local Open Scope manager_scope.

Definition gets {A} (f : stream_manager -> A) : M A := fun m => Done (f m) m [].
Definition modify (f : stream_manager -> stream_manager) : M unit :=
  fun m => Done tt (f m) [].
Definition emit (e : event) : M unit := fun m => Done tt m [e].
Definition undefined_behaviour {A} : M A := fun _ => Undefined.
Definition out_of_fuel {A} : M A := fun _ => OutOfFuel.

(** A range-based [for] over a sequence. *)
Fixpoint for_each {A} (l : list A) (body : A -> M unit) : M unit :=
  match l with
  | [] => ret tt
  | x :: l' => body x;; for_each l' body
  end.

(** [do body while (cond)], with a bound on the number of rounds. *)
Fixpoint do_while (fuel : nat) (body : M unit) (cond : M bool) : M unit :=
  match fuel with
  | O => out_of_fuel
  | S fuel' =>
      body;;
      again <- cond;;
      if again then do_while fuel' body cond else ret tt
  end.

(** [std::map] is walked in ascending key order. *)
Definition key_le {V} (a b : N * V) : Prop := (a.1 <= b.1)%N.

Global Instance key_le_dec {V} : RelDecision (@key_le V).
Proof. intros a b. unfold key_le. apply _. Defined.

Global Instance key_le_total {V} : Total (@key_le V).
Proof. intros a b. unfold key_le. lia. Qed.

Definition map_in_order {V} (m : gmap N V) : list (N * V) :=
  merge_sort key_le (map_to_list m).

(** [std::map::emplace]: an existing entry wins. *)
Definition emplace {V} (k : N) (v : V) (m : gmap N V) : gmap N V :=
  match m !! k with
  | Some _ => m
  | None => <[k := v]> m
  end.

(** A failing [CAF_ASSERT] and the other ways of not returning. *)
Definition assertion_failed {A} (what : string) : M A :=
  fun _ => AssertionFailed what.

Section Manager.

(** [CAF_ENABLE_RUNTIME_CHECKS]: whether [CAF_ASSERT] is compiled in. *)
Variable runtime_checks : bool.

(** The constructor of [outbound_path], declared outside this file. *)
Variable new_outbound_path : stream_slots -> strong_actor_ptr -> outbound_path.

(** What the scatterer holds ready to be sent on a path: the number of items
    it would emit there if credit were no limit. *)
Variable buffered : stream_slot -> outbound_path -> Z.

Definition CAF_ASSERT (cond : bool) (what : string) : M unit :=
  if runtime_checks
  then (if cond then ret tt else assertion_failed what)
  else ret tt.

(** *** The scatterer's operations *)

(** Modelled from the spec: [addPath(slots, rebindTarget) -> path-or-null] of
    the outbound scatterer, whose code is not part of the sources.  A path is
    stored under the slot of its local end, the sender of the pair it is
    created with (the manager addresses it by the receiver slot of the
    upstream messages it gets, which is that slot); a second path for the
    same slot is refused.  The result is the key of the new path, standing
    for the pointer. *)
Definition sc_add_path (slots : stream_slots) (target : strong_actor_ptr)
    (sc : stream_scatterer) : option (stream_slot * stream_scatterer) :=
  match sc_paths sc !! sender slots with
  | Some _ => None
  | None =>
      Some (sender slots,
            set_sc_paths
              (<[sender slots := new_outbound_path slots target]> (sc_paths sc))
              sc)
  end.

(** Modelled from the spec: [path(slot) -> path-or-null]. *)
Definition sc_path (slot : stream_slot) (sc : stream_scatterer)
    : option stream_slot :=
  match sc_paths sc !! slot with
  | Some _ => Some slot
  | None => None
  end.

(** Modelled from the spec: [removePath] of the outbound scatterer, whose
    code is not part of the sources.  The result tells whether a path was at
    the slot and has been removed.  The third argument is the flag that keeps
    the removal silent toward the remote end: the drop handler passes [true]
    and its removal is the silent one, and [remove_input_path] of this file
    names the same position [silent].  Only a removal that is not silent
    tells the remote end, with the reason. *)
Definition sc_remove_path (slot : stream_slot) (reason : error)
    (silent : bool) (sc : stream_scatterer)
    : bool * stream_scatterer * list event :=
  match sc_paths sc !! slot with
  | Some _ =>
      (true, set_sc_paths (delete slot (sc_paths sc)) sc,
       if silent then [] else [RemoteSignal slot reason])
  | None => (false, sc, [])
  end.

(** Modelled from the spec: [close()] of the outbound scatterer. *)
Definition sc_close (sc : stream_scatterer) : stream_scatterer :=
  set_sc_status sc_closed sc.

(** Modelled from the spec: [abort(reason)] of the outbound scatterer. *)
Definition sc_abort (reason : error) (sc : stream_scatterer) : stream_scatterer :=
  set_sc_status (sc_aborted reason) sc.

(** Modelled from the spec: the credit [emitBatches()] uses on one path, "emit
    any batches it can given current credit": what the scatterer holds ready
    for the path, as far as the open credit reaches. *)
Definition batch_credit (slot : stream_slot) (p : outbound_path) : Z :=
  Z.max 0 (Z.min (open_credit p) (buffered slot p)).

(** Modelled from the spec: the credit one call of [emitBatches()] uses, by
    slot. *)
Definition sc_credit_used (sc : stream_scatterer) : gmap N Z :=
  map_imap (fun slot p => Some (batch_credit slot p)) (sc_paths sc).

(** Modelled from the spec: [emitBatches()] of the outbound scatterer.  The
    open credit of every path goes down by what was sent on it; nothing else
    of a path changes. *)
Definition sc_emit_batches (sc : stream_scatterer) : stream_scatterer :=
  set_sc_paths
    (map_imap
       (fun slot p =>
          Some (set_open_credit (open_credit p - batch_credit slot p) p))
       (sc_paths sc))
    sc.

(** *** Calls through [out()] and writes through a path pointer *)

Definition out_add_path (slots : stream_slots) (target : strong_actor_ptr)
    : M (option stream_slot) :=
  emit (OutAddPath slots target);;
  sc <- gets out_;;
  match sc_add_path slots target sc with
  | Some (path, sc') => modify (set_out sc');; ret (Some path)
  | None => ret None
  end.

Definition out_path (slot : stream_slot) : M (option stream_slot) :=
  sc <- gets out_;;
  ret (sc_path slot sc).

Definition out_remove_path (slot : stream_slot) (reason : error) (flag : bool)
    : M bool :=
  emit (OutRemovePath slot reason flag);;
  sc <- gets out_;;
  let '(removed, sc', signals) := sc_remove_path slot reason flag sc in
  modify (set_out sc');;
  for_each signals emit;;
  ret removed.

Definition out_close : M unit :=
  emit OutClose;;
  modify (fun m => set_out (sc_close (out_ m)) m).

Definition out_abort (reason : error) : M unit :=
  emit (OutAbort reason);;
  modify (fun m => set_out (sc_abort reason (out_ m)) m).

Definition out_emit_batches : M unit :=
  emit OutEmitBatches;;
  sc <- gets out_;;
  emit (BatchesEmitted (sc_credit_used sc));;
  modify (set_out (sc_emit_batches sc)).

(** [path->field = ...]: the path lives in the scatterer. *)
Definition path_write (path : stream_slot)
    (f : outbound_path -> outbound_path) : M unit :=
  modify (fun m => set_out (set_sc_paths (alter f path (sc_paths (out_ m)))
                                         (out_ m)) m).

(** *** Member functions with a default body in the base class *)

Definition finalize (reason : error) : M unit :=
  emit (Finalize reason).

Definition make_final_result : M message :=
  emit MakeFinalResult;;
  ret none.

Definition generate_messages : M bool :=
  emit GenerateMessages;;
  ret false.

Definition make_handshake (slot : stream_slot) : M message :=
  emit (MakeHandshake slot);;
  emit (LogError "stream_manager::make_handshake called");;
  ret none.

Definition process_batch (x : message) : M error :=
  emit (LogError "stream_manager::process_batch called");;
  ret (make_error "invalid_stream_state").

Definition downstream_demand (path : stream_slot) (demand : Z) : M unit :=
  emit (LogError "stream_manager::downstream_demand called").

Definition congested : M bool := ret false.

Definition cycle_timeout (n : N) : M unit := ret tt.

Definition output_closed (reason : error) : M unit := ret tt.

Definition input_closed (reason : error) : M unit := ret tt.

(** *** The constructor *)

(** [out()] is provided by the derived class; the model is given the
    scatterer at construction. *)
Definition stream_manager_ctor (selfptr : actor_id) (prio : stream_priority)
    (out : stream_scatterer) : stream_manager :=
  {| self_ := selfptr; pending_handshakes_ := 0; priority_ := prio;
     continuous_ := false; inbound_paths_ := []; promises_ := [];
     in_flight_promises_ := ∅; out_ := out |}.

(** *** [push], [deliver_promises], [stop], [abort] *)

Definition push_rounds (fuel : nat) : M unit :=
  do_while fuel out_emit_batches generate_messages.

(** [generate_messages] of this class answers [false], so the loop of [push]
    is left after its first round: one round of fuel is all it uses (see
    [push_rounds_enough] below). *)
Definition push : M unit := push_rounds 1.

Definition deliver_promises (x : message) : M unit :=
  ps <- gets promises_;;
  for_each ps (fun p => emit (Deliver p x));;
  modify (set_promises []).

Definition stop : M unit :=
  out_close;;
  let tmp := no_error in
  finalize tmp;;
  emit (EraseInboundPathsLater None);;
  ps <- gets promises_;;
  if bool_decide (ps ≠ [])
  then (r <- make_final_result;; deliver_promises r)
  else ret tt.

Definition abort (reason : error) : M unit :=
  ps <- gets promises_;;
  ifp <- gets in_flight_promises_;;
  (if bool_decide (ps ≠ []) || bool_decide (ifp ≠ ∅)
   then
     emit (MakeMessage reason);;
     let msg := make_message reason in
     deliver_promises msg;;
     for_each (map_in_order ifp) (fun kvp => emit (Deliver kvp.2 msg));;
     modify (set_in_flight_promises ∅)
   else ret tt);;
  out_abort reason;;
  finalize reason;;
  emit (EraseInboundPathsLater (Some reason)).

(** *** Handlers for downstream messages *)

Definition handle_batch (path : inbound_path_ptr) (x : batch) : M unit :=
  emit (LogWarning "unimplemented base handler for batches called").

Definition handle_close (path : inbound_path_ptr) (x : close) : M unit :=
  ret tt.

Definition handle_forced_close (path : inbound_path_ptr) (x : forced_close)
    : M unit :=
  abort (fc_reason x).

(** *** Handlers for upstream messages *)

Definition handle_ack_open (slots : stream_slots) (x : ack_open) : M bool :=
  path <- out_add_path (invert slots) (rebind_to x);;
  match path with
  | None => ret false
  | Some path =>
      path_write path (set_open_credit (initial_demand x));;
      path_write path (set_desired_batch_size (ao_desired_batch_size x));;
      modify (fun m => set_pending_handshakes (pending_handshakes_ m - 1) m);;
      push;;
      modify (fun m =>
                set_in_flight_promises
                  (delete (sender slots) (in_flight_promises_ m)) m);;
      ret true
  end.

Definition handle_ack_batch (slots : stream_slots) (x : ack_batch) : M unit :=
  path <- out_path (receiver slots);;
  match path with
  | Some path =>
      path_write path
        (fun p => set_open_credit (open_credit p + new_capacity x) p);;
      path_write path (set_desired_batch_size (ab_desired_batch_size x));;
      path_write path (set_next_ack_id (acknowledged_id x + 1));;
      push
  | None => ret tt
  end.

Definition handle_drop (slots : stream_slots) (x : drop) : M unit :=
  let tmp := no_error in
  out_remove_path (receiver slots) tmp true;;
  ret tt.

Definition handle_forced_drop (slots : stream_slots) (x : forced_drop)
    : M unit :=
  removed <- out_remove_path (receiver slots) (fd_reason x) true;;
  if removed then abort (fd_reason x) else ret tt.

(** *** Handshakes *)

Definition send_handshake (dest : strong_actor_ptr) (slot : stream_slot)
    (client : strong_actor_ptr) (fwd_stack : forwarding_stack)
    (mid : message_id) : M unit :=
  CAF_ASSERT (bool_decide (dest ≠ None)) "dest != nullptr";;
  modify (fun m => set_pending_handshakes (pending_handshakes_ m + 1) m);;
  ctrl <- gets self_;;
  modify (fun m =>
            set_in_flight_promises
              (emplace slot (mk_promise ctrl client fwd_stack mid)
                       (in_flight_promises_ m)) m);;
  hs <- make_handshake slot;;
  prio <- gets priority_;;
  match dest with
  | Some d =>
      emit (Enqueue d
              (make_mailbox_element client mid fwd_stack
                 (mk_open_stream_msg slot hs ctrl dest prio)))
  | None => undefined_behaviour
  end.

(** The overload without client: an empty forwarding stack, no client, and a
    fresh message id from [make_message_id()] (the default id, [0]). *)
Definition make_message_id : message_id := 0%N.

Definition send_handshake_anon (dest : strong_actor_ptr) (slot : stream_slot)
    : M unit :=
  let fwd_stack : forwarding_stack := [] in
  send_handshake dest slot None fwd_stack make_message_id.

(** *** The registry of inbound paths *)

Definition register_input_path (ptr : inbound_path_ptr) : M unit :=
  CAF_ASSERT (bool_decide (ptr ≠ nullptr)) "ptr != nullptr";;
  modify (fun m => set_inbound_paths (inbound_paths_ m ++ [ptr]) m).

(** [std::find(begin, end, x)] as an index; [length l] stands for [end()]. *)
Fixpoint std_find (x : N) (l : list N) : nat :=
  match l with
  | [] => O
  | y :: l' => if bool_decide (y = x) then O else S (std_find x l')
  end.

(** [inbound_paths_.back()]: undefined on an empty vector. *)
Definition paths_back : M N :=
  ps <- gets inbound_paths_;;
  match last ps with
  | Some b => ret b
  | None => undefined_behaviour
  end.

(** [swap( *i, inbound_paths_.back())]: dereferencing [end()] is undefined. *)
Definition paths_swap_with_back (i : nat) : M unit :=
  ps <- gets inbound_paths_;;
  match ps !! i, last ps with
  | Some a, Some b =>
      modify (set_inbound_paths (<[pred (length ps) := a]> (<[i := b]> ps)))
  | _, _ => undefined_behaviour
  end.

(** [inbound_paths_.pop_back()]: undefined on an empty vector. *)
Definition paths_pop_back : M unit :=
  ps <- gets inbound_paths_;;
  match ps with
  | [] => undefined_behaviour
  | _ :: _ => modify (set_inbound_paths (removelast ps))
  end.

Definition deregister_input_path (ptr : inbound_path_ptr) : M unit :=
  CAF_ASSERT (bool_decide (ptr ≠ nullptr)) "ptr != nullptr";;
  ps <- gets inbound_paths_;;
  CAF_ASSERT (bool_decide (0 < length ps)%nat) "inbound_paths_.size() > 0";;
  back <- paths_back;;
  (if bool_decide (ptr ≠ back)
   then
     ps <- gets inbound_paths_;;
     let i := std_find ptr ps in
     CAF_ASSERT (bool_decide (i ≠ length ps)) "i != inbound_paths_.end()";;
     paths_swap_with_back i
   else ret tt);;
  paths_pop_back.

Definition remove_input_path (slot : stream_slot) (reason : error)
    (silent : bool) : M unit :=
  if silent
  then emit (EraseInboundPathLater slot None)
  else emit (EraseInboundPathLater slot (Some reason)).

(** *** Promises *)

Definition add_promise (x : response_promise) : M unit :=
  terminal <- gets (fun m => sc_terminal (out_ m));;
  CAF_ASSERT terminal "out().terminal()";;
  modify (fun m => set_promises (promises_ m ++ [x]) m).

Definition add_unsafe_outbound_path (next : strong_actor_ptr)
    (slot : stream_slot) (origin : strong_actor_ptr)
    (stages : forwarding_stack) (mid : message_id) : M unit :=
  CAF_ASSERT (bool_decide (next ≠ None)) "next != nullptr";;
  terminal <- gets (fun m => sc_terminal (out_ m));;
  CAF_ASSERT (negb terminal) "out().terminal() == false";;
  send_handshake next slot origin stages mid;;
  generate_messages;;
  ret tt.

(** ** Runs of the handshake protocol *)

(** One call of [send_handshake] or of the open-ack handler. *)
Inductive handshake_call :=
  | SendHandshake (dest : actor_id) (slot : stream_slot)
      (client : strong_actor_ptr) (fwd_stack : forwarding_stack)
      (mid : message_id)
  | HandleAckOpen (slots : stream_slots) (x : ack_open).

Definition is_send_handshake (c : handshake_call) : bool :=
  match c with
  | SendHandshake _ _ _ _ _ => true
  | HandleAckOpen _ _ => false
  end.

(** Runs one call and tells whether it was an open-ack that succeeded. *)
Definition run_handshake_call (c : handshake_call) : M bool :=
  match c with
  | SendHandshake dest slot client fwd_stack mid =>
      send_handshake (Some dest) slot client fwd_stack mid;;
      ret false
  | HandleAckOpen slots x => handle_ack_open slots x
  end.

(** Runs the calls in order; the result counts the handshakes sent and the
    open-acks that succeeded. *)
Fixpoint run_handshake_calls (cs : list handshake_call) : M (Z * Z) :=
  match cs with
  | [] => ret (0, 0)
  | c :: cs' =>
      ok <- run_handshake_call c;;
      counts <- run_handshake_calls cs';;
      let sent :=
        match c with SendHandshake _ _ _ _ _ => 1 | HandleAckOpen _ _ => 0 end in
      ret (sent + counts.1, (if ok then 1 else 0) + counts.2)
  end.

(** Runs the batch-acks in order, all for the same slots. *)
Fixpoint run_ack_batches (slots : stream_slots) (xs : list ack_batch) : M unit :=
  match xs with
  | [] => ret tt
  | x :: xs' => handle_ack_batch slots x;; run_ack_batches slots xs'
  end.

(** ** Reading traces and outcomes *)

(** The manager a call leaves behind, if it returns. *)
Definition final_state {A} (o : outcome A) : option stream_manager :=
  match o with
  | Done _ m _ => Some m
  | _ => None
  end.

(** The events of a call, if it returns. *)
Definition trace_of {A} (o : outcome A) : list event :=
  match o with
  | Done _ _ t => t
  | _ => []
  end.

Definition is_finalize (e : event) : bool :=
  match e with Finalize _ => true | _ => false end.

Definition is_deliver (e : event) : bool :=
  match e with Deliver _ _ => true | _ => false end.

Definition is_remote_signal (e : event) : bool :=
  match e with RemoteSignal _ _ => true | _ => false end.

(** The credit the emitted batches of a trace used on one slot. *)
Fixpoint credit_used_on (slot : stream_slot) (t : list event) : Z :=
  match t with
  | [] => 0
  | BatchesEmitted used :: t' =>
      default 0 (used !! slot) + credit_used_on slot t'
  | _ :: t' => credit_used_on slot t'
  end.

(** The capacity a run of batch-acks grants. *)
Definition total_new_capacity (xs : list ack_batch) : Z :=
  foldr (fun x acc => new_capacity x + acc) 0 xs.

(** ** Example states *)

Definition example_scatterer : stream_scatterer :=
  {| sc_paths := ∅; sc_terminal := true; sc_status := sc_running |}.

Definition example_new_path (slots : stream_slots) (target : strong_actor_ptr)
    : outbound_path :=
  {| op_slots := slots; op_hdl := target; open_credit := 0;
     desired_batch_size := 0; next_ack_id := 0 |}.

Definition example_buffered (slot : stream_slot) (p : outbound_path) : Z := 4.

Definition example_path : outbound_path :=
  {| op_slots := mk_slots 3 7; op_hdl := Some 9%N; open_credit := 10;
     desired_batch_size := 2; next_ack_id := 0 |}.

Definition example_promise (client : N) : response_promise :=
  {| rp_self := 1%N; rp_source := Some client; rp_stages := []; rp_id := 11%N |}.

(** A freshly constructed manager. *)
Definition example_fresh : stream_manager :=
  stream_manager_ctor 1%N normal example_scatterer.

(** A manager with a live outbound path at slot 3, one ledger promise, one
    in-flight promise for slot 7, and three inbound paths. *)
Definition example_busy : stream_manager :=
  {| self_ := 1%N; pending_handshakes_ := 1; priority_ := normal;
     continuous_ := false; inbound_paths_ := [5%N; 6%N; 8%N];
     promises_ := [example_promise 20];
     in_flight_promises_ := {[ 7%N := example_promise 21 ]};
     out_ := set_sc_paths {[ 3%N := example_path ]} example_scatterer |}.

(** ** Running the monad *)

Ltac mrun := unfold bind, gets, modify, emit, ret; simpl.

Lemma bind_Done {A B} (c : M A) (f : A -> M B) m a m1 t1 :
  c m = Done a m1 t1 ->
  bind c f m =
    match f a m1 with
    | Done b m2 t2 => Done b m2 (t1 ++ t2)
    | AssertionFailed w => AssertionFailed w
    | Undefined => Undefined
    | OutOfFuel => OutOfFuel
    end.
Proof. intros H. unfold bind. now rewrite H. Qed.

Lemma bind_ret {A B} (a : A) (f : A -> M B) m : bind (ret a) f m = f a m.
Proof. unfold bind, ret. now destruct (f a m). Qed.

Lemma bind_gets {A B} (g : stream_manager -> A) (f : A -> M B) m :
  bind (gets g) f m = f (g m) m.
Proof. unfold bind, gets. now destruct (f (g m) m). Qed.

Lemma bind_modify {B} (g : stream_manager -> stream_manager) (f : unit -> M B) m :
  bind (modify g) f m = f tt (g m).
Proof. unfold bind, modify. now destruct (f tt (g m)). Qed.

Lemma bind_assoc {A B C} (c : M A) (f : A -> M B) (g : B -> M C) m :
  bind (bind c f) g m = bind c (fun a => bind (f a) g) m.
Proof.
  unfold bind. destruct (c m) as [a m1 t1| | |]; try reflexivity.
  destruct (f a m1) as [b m2 t2| | |]; try reflexivity.
  destruct (g b m2) as [d m3 t3| | |]; try reflexivity.
  now rewrite app_assoc.
Qed.

Lemma CAF_ASSERT_holds what : CAF_ASSERT true what = ret tt.
Proof. unfold CAF_ASSERT. now destruct runtime_checks. Qed.

Lemma CAF_ASSERT_fails what :
  CAF_ASSERT false what =
    if runtime_checks then assertion_failed what else ret tt.
Proof. reflexivity. Qed.

Lemma for_each_emit {A} (f : A -> event) (l : list A) m :
  for_each l (fun x => emit (f x)) m = Done tt m (map f l).
Proof.
  revert m. induction l as [|x l IH]; intros m; simpl.
  - reflexivity.
  - unfold bind. simpl. rewrite IH. reflexivity.
Qed.

Lemma for_each_emit_id (l : list event) m :
  for_each l emit m = Done tt m l.
Proof.
  revert m. induction l as [|x l IH]; intros m; simpl.
  - reflexivity.
  - unfold bind. simpl. rewrite IH. reflexivity.
Qed.

Lemma push_run m :
  push m =
    Done tt (set_out (sc_emit_batches (out_ m)) m)
      [OutEmitBatches; BatchesEmitted (sc_credit_used (out_ m));
       GenerateMessages].
Proof. reflexivity. Qed.

(** The loop of [push] never needs more than its first round. *)
Lemma push_rounds_enough (n : nat) m : push_rounds (S n) m = push m.
Proof. reflexivity. Qed.

Lemma deliver_promises_run x m :
  deliver_promises x m =
    Done tt (set_promises [] m) (map (fun p => Deliver p x) (promises_ m)).
Proof.
  unfold deliver_promises, bind, gets, modify.
  rewrite for_each_emit. simpl. now rewrite app_nil_r.
Qed.

(** ** The walk over a [std::map] *)

Lemma map_in_order_Permutation {V} (m : gmap N V) :
  map_in_order m ≡ₚ map_to_list m.
Proof. apply merge_sort_Permutation. Qed.

Lemma map_in_order_Sorted {V} (m : gmap N V) : Sorted key_le (map_in_order m).
Proof. apply Sorted_merge_sort. apply _. Qed.

Lemma map_in_order_empty {V} : map_in_order (∅ : gmap N V) = [].
Proof.
  apply Permutation_nil_r. rewrite map_in_order_Permutation.
  now rewrite map_to_list_empty.
Qed.

Lemma map_in_order_nil {V} (m : gmap N V) : map_in_order m = [] <-> m = ∅.
Proof.
  split.
  - intros H. apply map_to_list_empty_iff. apply Permutation_nil_r.
    now rewrite <- map_in_order_Permutation, H.
  - intros ->. apply map_in_order_empty.
Qed.

(** Every slot of the map is met once, with its own promise. *)
Lemma map_in_order_lookup {V} (m : gmap N V) (k : N) (v : V) :
  (k, v) ∈ map_in_order m <-> m !! k = Some v.
Proof. rewrite map_in_order_Permutation. apply elem_of_map_to_list. Qed.

Lemma map_in_order_NoDup {V} (m : gmap N V) : NoDup (map_in_order m).*1.
Proof.
  rewrite map_in_order_Permutation. apply NoDup_fst_map_to_list.
Qed.

(** ** [stop] and [abort], step by step *)

Lemma stop_run m :
  stop m =
    Done tt
      (if bool_decide (promises_ m ≠ [])
       then set_promises [] (set_out (sc_close (out_ m)) m)
       else set_out (sc_close (out_ m)) m)
      ([OutClose; Finalize no_error; EraseInboundPathsLater None] ++
       (if bool_decide (promises_ m ≠ [])
        then MakeFinalResult :: map (fun p => Deliver p none) (promises_ m)
        else [])).
Proof.
  unfold stop, out_close, finalize, make_final_result, bind, gets, modify, emit.
  simpl. destruct (bool_decide (promises_ m ≠ [])); simpl.
  - rewrite deliver_promises_run. simpl. reflexivity.
  - reflexivity.
Qed.

Lemma abort_run reason m :
  let owes :=
    bool_decide (promises_ m ≠ []) || bool_decide (in_flight_promises_ m ≠ ∅) in
  abort reason m =
    Done tt
      (set_out (sc_abort reason (out_ m))
         (if owes then set_in_flight_promises ∅ (set_promises [] m) else m))
      ((if owes
        then MakeMessage reason ::
             map (fun p => Deliver p (make_message reason)) (promises_ m) ++
             map (fun kvp : N * response_promise =>
                    Deliver kvp.2 (make_message reason))
                 (map_in_order (in_flight_promises_ m))
        else []) ++
       [OutAbort reason; Finalize reason; EraseInboundPathsLater (Some reason)]).
Proof.
  intros owes. unfold abort, out_abort, finalize.
  unfold bind at 1. unfold gets at 1. simpl.
  unfold bind at 1. unfold gets at 1. simpl.
  fold owes. destruct owes.
  - unfold bind. simpl. rewrite deliver_promises_run. simpl.
    rewrite for_each_emit. simpl. rewrite app_nil_r.
    rewrite <- app_assoc. reflexivity.
  - reflexivity.
Qed.

(** ** The upstream handlers, step by step *)

Lemma out_remove_path_run slot reason flag m :
  out_remove_path slot reason flag m =
    match sc_paths (out_ m) !! slot with
    | Some _ =>
        Done true (set_out (set_sc_paths (delete slot (sc_paths (out_ m))) (out_ m)) m)
          (OutRemovePath slot reason flag ::
           (if flag then [] else [RemoteSignal slot reason]))
    | None => Done false m [OutRemovePath slot reason flag]
    end.
Proof.
  unfold out_remove_path, sc_remove_path.
  unfold bind at 1. unfold emit at 1.
  unfold bind at 1. unfold gets at 1.
  destruct (sc_paths (out_ m) !! slot) as [p|].
  - unfold bind, modify. rewrite for_each_emit_id. simpl.
    now rewrite app_nil_r.
  - unfold bind, modify. simpl. destruct m as [? ? ? ? ? ? ? []]; reflexivity.
Qed.

Lemma handle_ack_open_run slots x m :
  handle_ack_open slots x m =
    match sc_paths (out_ m) !! receiver slots with
    | Some _ => Done false m [OutAddPath (invert slots) (rebind_to x)]
    | None =>
        let p :=
          set_desired_batch_size (ao_desired_batch_size x)
            (set_open_credit (initial_demand x)
               (new_outbound_path (invert slots) (rebind_to x))) in
        let seeded :=
          set_sc_paths (<[receiver slots := p]> (sc_paths (out_ m))) (out_ m) in
        Done true
          (set_in_flight_promises
             (delete (sender slots) (in_flight_promises_ m))
             (set_out (sc_emit_batches seeded)
                (set_pending_handshakes (pending_handshakes_ m - 1) m)))
          [OutAddPath (invert slots) (rebind_to x); OutEmitBatches;
           BatchesEmitted (sc_credit_used seeded); GenerateMessages]
    end.
Proof.
  unfold handle_ack_open, out_add_path, sc_add_path, path_write.
  mrun.
  destruct (sc_paths (out_ m) !! receiver slots) as [p|]; simpl.
  - reflexivity.
  - rewrite !alter_insert_eq. reflexivity.
Qed.

Lemma handle_ack_batch_run slots x m :
  handle_ack_batch slots x m =
    match sc_paths (out_ m) !! receiver slots with
    | None => Done tt m []
    | Some p =>
        let p' :=
          set_next_ack_id (acknowledged_id x + 1)
            (set_desired_batch_size (ab_desired_batch_size x)
               (set_open_credit (open_credit p + new_capacity x) p)) in
        let acked :=
          set_sc_paths (<[receiver slots := p']> (sc_paths (out_ m))) (out_ m) in
        Done tt (set_out (sc_emit_batches acked) m)
          [OutEmitBatches; BatchesEmitted (sc_credit_used acked);
           GenerateMessages]
    end.
Proof.
  unfold handle_ack_batch, out_path, sc_path, path_write.
  mrun.
  destruct (sc_paths (out_ m) !! receiver slots) as [p|] eqn:Hp; simpl.
  - assert (Halter : forall f g h,
              alter h (receiver slots)
                (alter g (receiver slots)
                   (alter f (receiver slots) (sc_paths (out_ m))))
              = <[receiver slots := h (g (f p))]> (sc_paths (out_ m))).
    { intros f g h. apply map_eq. intros k.
      destruct (decide (k = receiver slots)) as [->|Hne].
      - now rewrite !lookup_alter_eq, lookup_insert_eq, Hp.
      - now rewrite !lookup_alter_ne, lookup_insert_ne by congruence. }
    rewrite Halter. reflexivity.
  - reflexivity.
Qed.

Lemma handle_drop_run slots x m :
  handle_drop slots x m =
    match sc_paths (out_ m) !! receiver slots with
    | Some _ =>
        Done tt
          (set_out (set_sc_paths (delete (receiver slots) (sc_paths (out_ m)))
                      (out_ m)) m)
          [OutRemovePath (receiver slots) no_error true]
    | None => Done tt m [OutRemovePath (receiver slots) no_error true]
    end.
Proof.
  unfold handle_drop, bind. rewrite out_remove_path_run.
  destruct (sc_paths (out_ m) !! receiver slots); reflexivity.
Qed.

Lemma handle_forced_drop_run slots x m :
  handle_forced_drop slots x m =
    match sc_paths (out_ m) !! receiver slots with
    | Some _ =>
        bind (emit (OutRemovePath (receiver slots) (fd_reason x) true))
          (fun _ => abort (fd_reason x))
          (set_out (set_sc_paths (delete (receiver slots) (sc_paths (out_ m)))
                      (out_ m)) m)
    | None => Done tt m [OutRemovePath (receiver slots) (fd_reason x) true]
    end.
Proof.
  unfold handle_forced_drop. unfold bind at 1. rewrite out_remove_path_run.
  destruct (sc_paths (out_ m) !! receiver slots).
  - unfold bind, emit. rewrite abort_run. reflexivity.
  - reflexivity.
Qed.

(** ** Handshakes, step by step *)

Lemma send_handshake_run dest slot client fwd_stack mid m :
  send_handshake (Some dest) slot client fwd_stack mid m =
    Done tt
      (set_in_flight_promises
         (emplace slot (mk_promise (self_ m) client fwd_stack mid)
                  (in_flight_promises_ m))
         (set_pending_handshakes (pending_handshakes_ m + 1) m))
      [MakeHandshake slot; LogError "stream_manager::make_handshake called";
       Enqueue dest
         (make_mailbox_element client mid fwd_stack
            (mk_open_stream_msg slot none (self_ m) (Some dest) (priority_ m)))].
Proof.
  unfold send_handshake, CAF_ASSERT, make_handshake.
  destruct runtime_checks; reflexivity.
Qed.

Lemma run_handshake_call_pending c m :
  exists ok m' t,
    run_handshake_call c m = Done ok m' t /\
    pending_handshakes_ m' =
      pending_handshakes_ m
      + (match c with SendHandshake _ _ _ _ _ => 1 | HandleAckOpen _ _ => 0 end)
      - (if ok then 1 else 0) /\
    (is_send_handshake c = true -> ok = false).
Proof.
  destruct c as [dest slot client fwd_stack mid | slots x]; simpl.
  - unfold bind. rewrite send_handshake_run. simpl.
    eexists _, _, _. split; [reflexivity|]. simpl. split; [lia|reflexivity].
  - rewrite handle_ack_open_run.
    destruct (sc_paths (out_ m) !! receiver slots);
      eexists _, _, _; (split; [reflexivity|]); simpl;
      (split; [lia|discriminate]).
Qed.

Lemma run_handshake_calls_pending cs m :
  exists sent acked m' t,
    run_handshake_calls cs m = Done (sent, acked) m' t /\
    pending_handshakes_ m' = pending_handshakes_ m + sent - acked /\
    sent = Z.of_nat (length (List.filter is_send_handshake cs)) /\
    0 <= acked <= Z.of_nat (length cs) - sent.
Proof.
  revert m. induction cs as [|c cs IH]; intros m.
  - exists 0, 0, m, []. simpl. repeat split; lia.
  - destruct (run_handshake_call_pending c m)
      as (ok & m1 & t1 & Hc & Hp1 & Hok).
    destruct (IH m1) as (sent & acked & m2 & t2 & Hcs & Hp2 & Hsent & Hack).
    simpl. unfold bind at 1. rewrite Hc.
    unfold bind at 1. rewrite Hcs. simpl.
    eexists _, _, _, _. split; [reflexivity|].
    destruct c; simpl in *; [rewrite Hok in * by reflexivity|destruct ok];
      simpl; repeat split; lia.
Qed.

(** ** Credit accounting *)

Lemma credit_used_on_app slot t1 t2 :
  credit_used_on slot (t1 ++ t2) =
    credit_used_on slot t1 + credit_used_on slot t2.
Proof.
  induction t1 as [|e t1 IH]; simpl.
  - reflexivity.
  - destruct e; rewrite ?IH; lia.
Qed.

Lemma sc_emit_batches_lookup sc slot :
  sc_paths (sc_emit_batches sc) !! slot =
    (fun p => set_open_credit (open_credit p - batch_credit slot p) p)
      <$> sc_paths sc !! slot.
Proof.
  unfold sc_emit_batches. simpl. rewrite map_lookup_imap.
  destruct (sc_paths sc !! slot); reflexivity.
Qed.

Lemma sc_credit_used_lookup sc slot :
  sc_credit_used sc !! slot = batch_credit slot <$> sc_paths sc !! slot.
Proof.
  unfold sc_credit_used. rewrite map_lookup_imap.
  destruct (sc_paths sc !! slot); reflexivity.
Qed.

(** Emitting never uses more credit than a path has, nor a negative amount. *)
Lemma batch_credit_bounds slot p :
  0 <= batch_credit slot p /\
  (0 <= open_credit p -> batch_credit slot p <= open_credit p).
Proof. unfold batch_credit. lia. Qed.

Lemma handle_ack_open_path slots x m :
  sc_paths (out_ m) !! receiver slots = None ->
  exists m' t p,
    handle_ack_open slots x m = Done true m' t /\
    sc_paths (out_ m') !! receiver slots = Some p /\
    open_credit p = initial_demand x - credit_used_on (receiver slots) t /\
    desired_batch_size p = ao_desired_batch_size x /\
    next_ack_id p =
      next_ack_id (new_outbound_path (invert slots) (rebind_to x)).
Proof.
  intros Hnone. rewrite handle_ack_open_run, Hnone.
  eexists _, _, _. split; [reflexivity|].
  cbn [out_ set_in_flight_promises set_out set_pending_handshakes
       credit_used_on].
  rewrite sc_emit_batches_lookup, sc_credit_used_lookup.
  cbn [sc_paths set_sc_paths].
  rewrite lookup_insert_eq.
  split; [reflexivity|]. cbn. repeat split. lia.
Qed.

Lemma handle_ack_batch_path slots x m p :
  sc_paths (out_ m) !! receiver slots = Some p ->
  exists m' t p',
    handle_ack_batch slots x m = Done tt m' t /\
    sc_paths (out_ m') !! receiver slots = Some p' /\
    open_credit p' =
      open_credit p + new_capacity x - credit_used_on (receiver slots) t /\
    desired_batch_size p' = ab_desired_batch_size x /\
    next_ack_id p' = acknowledged_id x + 1.
Proof.
  intros Hp. rewrite handle_ack_batch_run, Hp.
  eexists _, _, _. split; [reflexivity|].
  cbn [out_ set_in_flight_promises set_out set_pending_handshakes
       credit_used_on].
  rewrite sc_emit_batches_lookup, sc_credit_used_lookup.
  cbn [sc_paths set_sc_paths].
  rewrite lookup_insert_eq.
  split; [reflexivity|]. cbn. repeat split. lia.
Qed.

Lemma run_ack_batches_path slots xs m p :
  sc_paths (out_ m) !! receiver slots = Some p ->
  exists m' t p',
    run_ack_batches slots xs m = Done tt m' t /\
    sc_paths (out_ m') !! receiver slots = Some p' /\
    open_credit p' =
      open_credit p + total_new_capacity xs
      - credit_used_on (receiver slots) t /\
    desired_batch_size p' =
      from_option ab_desired_batch_size (desired_batch_size p) (last xs) /\
    next_ack_id p' =
      from_option (fun x => acknowledged_id x + 1) (next_ack_id p) (last xs).
Proof.
  revert m p. induction xs as [|x xs IH]; intros m p Hp.
  - exists m, [], p. simpl. repeat split; [assumption|lia].
  - destruct (handle_ack_batch_path slots x m p Hp)
      as (m1 & t1 & p1 & Hrun1 & Hp1 & Hc1 & Hd1 & Ha1).
    destruct (IH m1 p1 Hp1) as (m2 & t2 & p2 & Hrun2 & Hp2 & Hc2 & Hd2 & Ha2).
    exists m2, (t1 ++ t2), p2.
    split.
    { simpl. unfold bind. now rewrite Hrun1, Hrun2. }
    split; [assumption|].
    rewrite credit_used_on_app, Hc2, Hd2, Ha2, Hc1, Hd1, Ha1.
    unfold total_new_capacity.
    destruct xs as [|y ys].
    + simpl. repeat split; lia.
    + change (last (x :: y :: ys)) with (last (y :: ys)).
      destruct (last (y :: ys)) as [z|] eqn:Hlast.
      * simpl. repeat split; lia.
      * apply last_None in Hlast. discriminate.
Qed.

(** ** The registry of inbound paths *)

Lemma std_find_elem x (l : list N) : x ∈ l -> l !! std_find x l = Some x.
Proof.
  induction l as [|y l IH]; intros Hin.
  - now apply elem_of_nil in Hin.
  - simpl. case_bool_decide as Hy.
    + now subst.
    + simpl. apply IH. apply elem_of_cons in Hin as [->|Hin]; [done|exact Hin].
Qed.

Lemma std_find_absent x (l : list N) : x ∉ l -> std_find x l = length l.
Proof.
  induction l as [|y l IH]; intros Hnin; simpl.
  - reflexivity.
  - apply not_elem_of_cons in Hnin as [Hne Hnin].
    rewrite bool_decide_eq_false_2 by congruence. now rewrite IH.
Qed.

Lemma std_find_app x (l l2 : list N) :
  x ∈ l -> std_find x (l ++ l2) = std_find x l.
Proof.
  induction l as [|y l IH]; intros Hin.
  - now apply elem_of_nil in Hin.
  - simpl. case_bool_decide as Hy; [reflexivity|].
    f_equal. apply IH. apply elem_of_cons in Hin as [->|Hin]; [done|exact Hin].
Qed.

Lemma std_find_app_absent x (l l2 : list N) :
  x ∉ l -> std_find x (l ++ l2) = (length l + std_find x l2)%nat.
Proof.
  induction l as [|y l IH]; intros Hnin; simpl.
  - reflexivity.
  - apply not_elem_of_cons in Hnin as [Hne Hnin].
    rewrite bool_decide_eq_false_2 by congruence. now rewrite IH.
Qed.

Lemma deregister_input_path_run ptr front b m :
  ptr ≠ nullptr ->
  inbound_paths_ m = front ++ [b] ->
  deregister_input_path ptr m =
    if decide (ptr = b) then Done tt (set_inbound_paths front m) []
    else if decide (ptr ∈ front)
         then Done tt (set_inbound_paths (<[std_find ptr front := b]> front) m) []
         else if runtime_checks
              then AssertionFailed "i != inbound_paths_.end()"
              else Undefined.
Proof.
  intros Hnull Hps.
  unfold deregister_input_path.
  rewrite (bool_decide_eq_true_2 _ Hnull), CAF_ASSERT_holds, bind_ret.
  rewrite bind_gets, Hps.
  rewrite bool_decide_eq_true_2 by (rewrite length_app; simpl; lia).
  rewrite CAF_ASSERT_holds, bind_ret.
  assert (Hback : paths_back m = Done b m []).
  { unfold paths_back. now rewrite bind_gets, Hps, last_snoc. }
  rewrite (bind_Done _ _ _ _ _ _ Hback).
  assert (Hpop : forall l x m',
            inbound_paths_ m' = l ++ [x] ->
            paths_pop_back m' = Done tt (set_inbound_paths l m') []).
  { intros l x m' Hm'. unfold paths_pop_back. rewrite bind_gets, Hm'.
    rewrite <- (removelast_last l x) at 2. now destruct l. }
  destruct (decide (ptr = b)) as [->|Hne].
  - rewrite bool_decide_eq_false_2 by (intros H; now apply H).
    rewrite bind_ret, (Hpop _ _ _ Hps). reflexivity.
  - rewrite (bool_decide_eq_true_2 _ Hne), bind_assoc, bind_gets, Hps.
    destruct (decide (ptr ∈ front)) as [Hin|Hnin].
    + rewrite (std_find_app _ _ _ Hin).
      pose proof (std_find_elem _ _ Hin) as Hlook.
      pose proof (lookup_lt_Some _ _ _ Hlook) as Hlt.
      rewrite bool_decide_eq_true_2 by (rewrite length_app; simpl; lia).
      rewrite CAF_ASSERT_holds, bind_assoc, bind_ret.
      unfold paths_swap_with_back.
      rewrite bind_assoc, bind_gets, Hps, last_snoc.
      rewrite (lookup_app_l_Some _ _ _ _ Hlook).
      assert (Hswap :
        <[Init.Nat.pred (length (front ++ [b])) := ptr]>
          (<[std_find ptr front := b]> (front ++ [b]))
        = <[std_find ptr front := b]> front ++ [ptr]).
      { rewrite insert_app_l by exact Hlt.
        rewrite length_app. simpl.
        replace (Init.Nat.pred (length front + 1))
          with (length (<[std_find ptr front := b]> front) + 0)%nat
          by (rewrite length_insert; lia).
        now rewrite insert_app_r. }
      rewrite Hswap, bind_modify.
      rewrite (Hpop (<[std_find ptr front := b]> front) ptr) by reflexivity.
      reflexivity.
    + rewrite (std_find_app_absent _ _ _ Hnin). simpl std_find.
      rewrite (bool_decide_eq_false_2 (b = ptr)) by congruence.
      rewrite bool_decide_eq_false_2
        by (rewrite length_app; simpl; intros H; apply H; lia).
      rewrite CAF_ASSERT_fails.
      destruct runtime_checks; [reflexivity|].
      rewrite bind_assoc, bind_ret. unfold paths_swap_with_back.
      rewrite bind_assoc, bind_gets, Hps.
      rewrite lookup_ge_None_2 by (rewrite length_app; simpl; lia).
      reflexivity.
Qed.

Lemma deregister_input_path_empty ptr m :
  ptr ≠ nullptr ->
  inbound_paths_ m = [] ->
  deregister_input_path ptr m =
    if runtime_checks
    then AssertionFailed "inbound_paths_.size() > 0"
    else Undefined.
Proof.
  intros Hnull Hps. unfold deregister_input_path.
  rewrite (bool_decide_eq_true_2 _ Hnull), CAF_ASSERT_holds, bind_ret.
  rewrite bind_gets, Hps.
  rewrite bool_decide_eq_false_2 by (simpl; lia).
  rewrite CAF_ASSERT_fails.
  destruct runtime_checks; [reflexivity|].
  rewrite bind_ret. unfold paths_back.
  rewrite bind_assoc, bind_gets, Hps. reflexivity.
Qed.

Lemma map_fmap {A B} (f : A -> B) (l : list A) : map f l = f <$> l.
Proof. induction l as [|x l IH]; simpl; [reflexivity|now rewrite IH]. Qed.

Lemma filter_finalize_deliver (f : response_promise -> message)
    (l : list response_promise) :
  List.filter is_finalize (map (fun p => Deliver p (f p)) l) = [].
Proof. induction l as [|p l IH]; simpl; [reflexivity|exact IH]. Qed.

Lemma filter_deliver_deliver (f : response_promise -> message)
    (l : list response_promise) :
  List.filter is_deliver (map (fun p => Deliver p (f p)) l) =
    map (fun p => Deliver p (f p)) l.
Proof. induction l as [|p l IH]; simpl; [reflexivity|now rewrite IH]. Qed.

(** ** The claims *)

(** C1.  [abort(reason)], from every manager state: when a promise is owed
    (ledger or in-flight), one message carrying [reason] is built and
    delivered once to every ledger promise and once for every slot of the
    in-flight map; then the in-flight map is empty; the scatterer is aborted
    with the reason and [finalize] is called once, with the reason.  When no
    promise is owed, no message is built and nothing is delivered. *)
Theorem abort_delivers_reason_once (reason : error) (m : stream_manager) :
  let msg := make_message reason in
  let in_flight := map_in_order (in_flight_promises_ m) in
  let owed := promises_ m ++ map snd in_flight in
  exists m' t,
    abort reason m = Done tt m' t /\
    t = (if bool_decide (owed = []) then []
         else MakeMessage reason :: map (fun p => Deliver p msg) owed) ++
        [OutAbort reason; Finalize reason;
         EraseInboundPathsLater (Some reason)] /\
    (forall slot p,
       (slot, p) ∈ in_flight <-> in_flight_promises_ m !! slot = Some p) /\
    NoDup (map fst in_flight) /\
    in_flight_promises_ m' = ∅ /\
    promises_ m' = [] /\
    out_ m' = sc_abort reason (out_ m) /\
    pending_handshakes_ m' = pending_handshakes_ m /\
    inbound_paths_ m' = inbound_paths_ m /\
    List.filter is_finalize t = [Finalize reason].
Proof.
  intros msg in_flight owed.
  pose proof (abort_run reason m) as Hrun. cbv zeta in Hrun.
  assert (Howed : bool_decide (owed = []) =
                  negb (bool_decide (promises_ m ≠ []) ||
                        bool_decide (in_flight_promises_ m ≠ ∅))).
  { subst owed in_flight.
    destruct (promises_ m) as [|p ps].
    - destruct (decide (in_flight_promises_ m = ∅)) as [He|Hne].
      + rewrite He, map_in_order_empty. reflexivity.
      + rewrite (bool_decide_eq_true_2 _ Hne).
        rewrite bool_decide_eq_false_2; [rewrite orb_true_r; reflexivity|].
        simpl. intros Hnil. apply Hne, map_in_order_nil.
        now destruct (map_in_order (in_flight_promises_ m)).
    - reflexivity. }
  eexists _, _. split; [exact Hrun|].
  rewrite Howed.
  destruct (bool_decide (promises_ m ≠ []) ||
            bool_decide (in_flight_promises_ m ≠ ∅)) eqn:Howes; simpl.
  - subst owed. rewrite map_app, map_map.
    repeat split.
    + apply map_in_order_lookup.
    + apply map_in_order_lookup.
    + rewrite map_fmap. apply map_in_order_NoDup.
    + rewrite !List.filter_app.
      rewrite (filter_finalize_deliver (fun _ => make_message reason)).
      simpl. clear.
      induction (map_in_order (in_flight_promises_ m)) as [|kv l IH];
        [reflexivity|exact IH].
  - apply orb_false_iff in Howes as [Hps Hifp].
    apply bool_decide_eq_false in Hps. apply bool_decide_eq_false in Hifp.
    apply dec_stable in Hps. apply dec_stable in Hifp.
    repeat split; try assumption.
    + apply map_in_order_lookup.
    + apply map_in_order_lookup.
    + rewrite map_fmap. apply map_in_order_NoDup.
Qed.

(** C2 (as amended).  From construction, after any sequence of
    [send_handshake] and open-ack calls, [pending_handshakes_] is the number
    of handshakes sent minus the number of open-acks that succeeded.  The
    decrement is taken for every open-ack whose path could be added, so the
    counter is non-negative exactly when the successful open-acks do not
    outnumber the handshakes sent. *)
Theorem pending_handshakes_counts (cs : list handshake_call)
    (selfptr : actor_id) (prio : stream_priority) (out : stream_scatterer) :
  exists sent acked m' t,
    run_handshake_calls cs (stream_manager_ctor selfptr prio out)
      = Done (sent, acked) m' t /\
    sent = Z.of_nat (length (List.filter is_send_handshake cs)) /\
    0 <= acked <= Z.of_nat (length cs) - sent /\
    pending_handshakes_ m' = sent - acked /\
    (0 <= pending_handshakes_ m' <-> acked <= sent).
Proof.
  destruct (run_handshake_calls_pending cs (stream_manager_ctor selfptr prio out))
    as (sent & acked & m' & t & Hrun & Hp & Hsent & Hack).
  exists sent, acked, m', t. simpl in Hp.
  repeat split; try assumption; lia.
Qed.

(** C3.  The open-ack handler: when the scatterer cannot add the path, the
    answer is [false] and the manager is unchanged.  When the path is added,
    for the inverted slots and the rebind target, it carries the initial
    demand as open credit and the desired batch size of the message;
    [pending_handshakes_] goes down by one; [push] runs on that state; the
    in-flight entry of the sender slot is erased; the answer is [true]. *)
Theorem handle_ack_open_spec (slots : stream_slots) (x : ack_open)
    (m : stream_manager) :
  match sc_add_path (invert slots) (rebind_to x) (out_ m) with
  | None =>
      handle_ack_open slots x m =
        Done false m [OutAddPath (invert slots) (rebind_to x)]
  | Some (path, added) =>
      let seeded :=
        set_sc_paths
          (alter (set_desired_batch_size (ao_desired_batch_size x)) path
             (alter (set_open_credit (initial_demand x)) path
                (sc_paths added)))
          added in
      let m1 :=
        set_pending_handshakes (pending_handshakes_ m - 1)
          (set_out seeded m) in
      exists p m2 t2 m',
        sc_paths added =
          <[path := new_outbound_path (invert slots) (rebind_to x)]>
            (sc_paths (out_ m)) /\
        sc_paths (out_ m1) !! path = Some p /\
        open_credit p = initial_demand x /\
        desired_batch_size p = ao_desired_batch_size x /\
        push m1 = Done tt m2 t2 /\
        handle_ack_open slots x m =
          Done true m' (OutAddPath (invert slots) (rebind_to x) :: t2) /\
        m' = set_in_flight_promises
               (delete (sender slots) (in_flight_promises_ m2)) m2 /\
        pending_handshakes_ m' = pending_handshakes_ m - 1 /\
        in_flight_promises_ m' =
          delete (sender slots) (in_flight_promises_ m) /\
        in_flight_promises_ m' !! sender slots = None
  end.
Proof.
  rewrite handle_ack_open_run. unfold sc_add_path.
  change (sender (invert slots)) with (receiver slots).
  destruct (sc_paths (out_ m) !! receiver slots) as [p|] eqn:Hp.
  - reflexivity.
  - cbv zeta. cbn [sc_paths set_sc_paths]. rewrite !alter_insert_eq.
    eexists _, _, _, _.
    split; [reflexivity|].
    split; [apply lookup_insert_eq|].
    split; [reflexivity|]. split; [reflexivity|].
    split; [apply push_run|].
    split; [reflexivity|].
    split; [reflexivity|].
    split; [reflexivity|].
    split; [reflexivity|].
    apply lookup_delete_eq.
Qed.

(** C4.  The drop handler removes the outbound path at the receiver slot
    with no error reason and silently: the scatterer is asked once, with a
    default-constructed error and the silent flag set, the remote end of the
    path is not signalled, and nothing else of the manager changes. *)
Theorem handle_drop_spec (slots : stream_slots) (x : drop) (m : stream_manager) :
  exists m' t,
    handle_drop slots x m = Done tt m' t /\
    t = [OutRemovePath (receiver slots) no_error true] /\
    List.filter is_remote_signal t = [] /\
    m' = set_out
           (set_sc_paths (delete (receiver slots) (sc_paths (out_ m))) (out_ m))
           m /\
    sc_paths (out_ m') !! receiver slots = None /\
    (forall slot, slot ≠ receiver slots ->
       sc_paths (out_ m') !! slot = sc_paths (out_ m) !! slot).
Proof.
  rewrite handle_drop_run.
  destruct (sc_paths (out_ m) !! receiver slots) as [p|] eqn:Hp.
  - eexists _, _. split; [reflexivity|]. repeat split.
    + apply lookup_delete_eq.
    + intros slot Hne. cbn [out_ set_out sc_paths set_sc_paths].
      now apply lookup_delete_ne.
  - eexists _, _. split; [reflexivity|]. repeat split.
    + rewrite (delete_id _ _ Hp). now destruct m as [? ? ? ? ? ? ? []].
    + exact Hp.
Qed.

(** C5.  The forced-drop handler asks the scatterer to remove the path at the
    receiver slot with the reason of the message.  If a path was there, it is
    removed and the manager is aborted with that reason; if none was there,
    nothing is removed and nothing is aborted. *)
Theorem handle_forced_drop_spec (slots : stream_slots) (x : forced_drop)
    (m : stream_manager) :
  let slot := receiver slots in
  let reason := fd_reason x in
  match sc_paths (out_ m) !! slot with
  | Some _ =>
      exists m1 t1 m2 t2,
        out_remove_path slot reason true m = Done true m1 t1 /\
        hd_error t1 = Some (OutRemovePath slot reason true) /\
        sc_paths (out_ m1) = delete slot (sc_paths (out_ m)) /\
        abort reason m1 = Done tt m2 t2 /\
        handle_forced_drop slots x m = Done tt m2 (t1 ++ t2) /\
        In (OutAbort reason) t2 /\
        In (Finalize reason) t2
  | None =>
      out_remove_path slot reason true m =
        Done false m [OutRemovePath slot reason true] /\
      handle_forced_drop slots x m =
        Done tt m [OutRemovePath slot reason true]
  end.
Proof.
  cbv zeta.
  destruct (sc_paths (out_ m) !! receiver slots) as [p|] eqn:Hp.
  - pose proof
      (abort_run (fd_reason x)
         (set_out (set_sc_paths (delete (receiver slots) (sc_paths (out_ m)))
                     (out_ m)) m)) as Habort.
    cbv zeta in Habort.
    rewrite handle_forced_drop_run, out_remove_path_run, Hp.
    unfold bind, emit. rewrite Habort.
    eexists _, _, _, _. split; [reflexivity|].
    split; [reflexivity|]. split; [reflexivity|].
    split; [exact Habort|]. split; [reflexivity|].
    split; apply in_or_app; right; simpl; auto.
  - rewrite handle_forced_drop_run, out_remove_path_run, Hp.
    split; reflexivity.
Qed.

(** C6.  The batch-ack handler, for a path at the receiver slot: the new
    capacity is added to the open credit, the desired batch size is taken
    from the message, [next_ack_id] becomes the acknowledged id plus one, and
    [push] runs on that state.  With no path at that slot the call changes
    nothing and emits nothing.  Hence, after an open-ack that got its path
    and any run of batch-acks for it, the open credit is the initial demand
    plus all new capacity minus the credit used by the emitted batches, and
    [next_ack_id] is the last acknowledged id plus one. *)
Theorem handle_ack_batch_spec :
  (forall (slots : stream_slots) (x : ack_batch) (m : stream_manager),
     match sc_paths (out_ m) !! receiver slots with
     | None => handle_ack_batch slots x m = Done tt m []
     | Some p =>
         exists p',
           open_credit p' = open_credit p + new_capacity x /\
           desired_batch_size p' = ab_desired_batch_size x /\
           next_ack_id p' = acknowledged_id x + 1 /\
           op_slots p' = op_slots p /\
           op_hdl p' = op_hdl p /\
           handle_ack_batch slots x m =
             push (set_out
                     (set_sc_paths (<[receiver slots := p']> (sc_paths (out_ m)))
                        (out_ m))
                     m)
     end) /\
  (forall (slots : stream_slots) (x : ack_open) (xs : list ack_batch)
          (m : stream_manager),
     sc_paths (out_ m) !! receiver slots = None ->
     exists m1 t1 m2 t2 p,
       handle_ack_open slots x m = Done true m1 t1 /\
       run_ack_batches slots xs m1 = Done tt m2 t2 /\
       sc_paths (out_ m2) !! receiver slots = Some p /\
       open_credit p =
         initial_demand x + total_new_capacity xs
         - credit_used_on (receiver slots) (t1 ++ t2) /\
       (forall y, last xs = Some y ->
                  next_ack_id p = acknowledged_id y + 1 /\
                  desired_batch_size p = ab_desired_batch_size y)).
Proof.
  split.
  - intros slots x m. rewrite handle_ack_batch_run.
    destruct (sc_paths (out_ m) !! receiver slots) as [p|]; [|reflexivity].
    exists (set_next_ack_id (acknowledged_id x + 1)
              (set_desired_batch_size (ab_desired_batch_size x)
                 (set_open_credit (open_credit p + new_capacity x) p))).
    rewrite push_run. repeat split.
  - intros slots x xs m Hnone.
    destruct (handle_ack_open_path slots x m Hnone)
      as (m1 & t1 & p1 & Hopen & Hp1 & Hc1 & Hd1 & Ha1).
    destruct (run_ack_batches_path slots xs m1 p1 Hp1)
      as (m2 & t2 & p2 & Hrun & Hp2 & Hc2 & Hd2 & Ha2).
    exists m1, t1, m2, t2, p2.
    repeat split; try assumption.
    + rewrite credit_used_on_app. lia.
    + rewrite Ha2, H. reflexivity.
    + rewrite Hd2, H. reflexivity.
Qed.

(** C7.  [stop()] closes the scatterer, calls [finalize] with no error and
    schedules the clean-up of the inbound paths; the result of
    [make_final_result] is delivered to the ledger promises exactly when the
    ledger is not empty, and with an empty ledger nothing is delivered. *)
Theorem stop_spec (m : stream_manager) :
  exists m' t r,
    stop m = Done tt m' t /\
    make_final_result m' = Done r m' [MakeFinalResult] /\
    t = [OutClose; Finalize no_error; EraseInboundPathsLater None] ++
        (if bool_decide (promises_ m = []) then []
         else MakeFinalResult :: map (fun p => Deliver p r) (promises_ m)) /\
    out_ m' = sc_close (out_ m) /\
    sc_status (out_ m') = sc_closed /\
    promises_ m' = [] /\
    pending_handshakes_ m' = pending_handshakes_ m /\
    inbound_paths_ m' = inbound_paths_ m.
Proof.
  rewrite stop_run.
  destruct (decide (promises_ m = [])) as [He|Hne].
  - rewrite (bool_decide_eq_true_2 _ He).
    rewrite bool_decide_eq_false_2 by (intros H; now apply H).
    eexists _, _, _. repeat split. exact He.
  - rewrite (bool_decide_eq_false_2 _ Hne), (bool_decide_eq_true_2 _ Hne).
    eexists _, _, _. repeat split.
Qed.

(** C8 (as amended).  For a registered inbound path, [deregister_input_path]
    removes one entry for it, moving the last entry into its place when it is
    not the last one, so that every other registered path remains.  The path
    has to be registered: that is asserted, and an absent path is not
    ignored. *)
Theorem deregister_input_path_present (ptr : inbound_path_ptr)
    (m : stream_manager) :
  ptr ≠ nullptr ->
  ptr ∈ inbound_paths_ m ->
  exists front b remaining,
    inbound_paths_ m = front ++ [b] /\
    remaining =
      (if decide (ptr = b) then front
       else <[std_find ptr front := b]> front) /\
    deregister_input_path ptr m = Done tt (set_inbound_paths remaining m) [] /\
    ptr :: remaining ≡ₚ inbound_paths_ m.
Proof.
  intros Hnull Hin.
  assert (Hsplit : exists front b, inbound_paths_ m = front ++ [b]).
  { destruct (inbound_paths_ m) as [|p0 ps0].
    - now apply elem_of_nil in Hin.
    - destruct (exists_last (l := p0 :: ps0)) as (front & b & ->);
        [discriminate|eauto]. }
  destruct Hsplit as (front & b & Hps). rewrite Hps in Hin |- *.
  exists front, b. eexists. split; [reflexivity|]. split; [reflexivity|].
  rewrite (deregister_input_path_run ptr front b m Hnull Hps).
  destruct (decide (ptr = b)) as [->|Hne].
  - split; [reflexivity|].
    now rewrite Permutation_cons_append.
  - apply elem_of_app in Hin as [Hin|Hin];
      [|apply list_elem_of_singleton in Hin; congruence].
    rewrite decide_True by exact Hin.
    split; [reflexivity|].
    pose proof (std_find_elem _ _ Hin) as Hlook.
    pose proof (lookup_lt_Some _ _ _ Hlook) as Hlt.
    rewrite insert_take_drop by exact Hlt.
    remember (std_find ptr front) as i eqn:Hi. clear Hi.
    transitivity ((take i front ++ ptr :: list.drop (S i) front) ++ [b]);
      [|now rewrite (take_drop_middle front i ptr Hlook)].
    rewrite <- app_assoc. simpl.
    rewrite (Permutation_middle (take i front)).
    apply Permutation_app_head.
    rewrite (Permutation_cons_append _ b). reflexivity.
Qed.

(** C9.  [stop()] leaves the in-flight promises as they are: the map is the
    same afterwards, and every delivery of the call goes to a promise of the
    ledger, one per ledger promise. *)
Theorem stop_keeps_in_flight_promises (m : stream_manager) :
  exists m' t,
    stop m = Done tt m' t /\
    in_flight_promises_ m' = in_flight_promises_ m /\
    (forall p msg, In (Deliver p msg) t -> In p (promises_ m)) /\
    List.filter is_deliver t = map (fun p => Deliver p none) (promises_ m).
Proof.
  rewrite stop_run. eexists _, _. split; [reflexivity|].
  destruct (bool_decide (promises_ m ≠ [])) eqn:Hps.
  - split; [reflexivity|]. split.
    + intros p msg [H|[H|[H|[H|H]]]]; try discriminate.
      apply in_map_iff in H as (q & Hq & Hin). now inversion Hq; subst.
    + simpl. apply (filter_deliver_deliver (fun _ => none)).
  - apply bool_decide_eq_false in Hps. apply dec_stable in Hps.
    split; [reflexivity|]. rewrite Hps. split.
    + intros p msg [H|[H|[H|H]]]; try discriminate. destruct H.
    + reflexivity.
Qed.

(** C10.  The in-flight map has one entry per slot at most, and a handshake
    sent for a slot that already has an entry leaves the map as it is, while
    [pending_handshakes_] still goes up by one and the open-stream message is
    still enqueued at the destination. *)
Theorem send_handshake_existing_slot (dest : actor_id) (slot : stream_slot)
    (client : strong_actor_ptr) (fwd_stack : forwarding_stack)
    (mid : message_id) (m : stream_manager) (p : response_promise) :
  in_flight_promises_ m !! slot = Some p ->
  exists m' t,
    send_handshake (Some dest) slot client fwd_stack mid m = Done tt m' t /\
    in_flight_promises_ m' = in_flight_promises_ m /\
    in_flight_promises_ m' !! slot = Some p /\
    NoDup (map fst (map_to_list (in_flight_promises_ m'))) /\
    pending_handshakes_ m' = pending_handshakes_ m + 1 /\
    t = [MakeHandshake slot;
         LogError "stream_manager::make_handshake called";
         Enqueue dest
           (make_mailbox_element client mid fwd_stack
              (mk_open_stream_msg slot none (self_ m) (Some dest)
                 (priority_ m)))].
Proof.
  intros Hp. rewrite send_handshake_run.
  eexists _, _. split; [reflexivity|].
  cbn [in_flight_promises_ set_in_flight_promises pending_handshakes_
       set_pending_handshakes].
  unfold emplace. rewrite Hp.
  repeat split; try assumption.
  rewrite map_fmap. apply NoDup_fst_map_to_list.
Qed.

(** ** More of the manager: the registry *)

Lemma set_inbound_paths_id m : set_inbound_paths (inbound_paths_ m) m = m.
Proof. now destruct m. Qed.

Lemma register_input_path_run ptr m :
  ptr ≠ nullptr ->
  register_input_path ptr m =
    Done tt (set_inbound_paths (inbound_paths_ m ++ [ptr]) m) [].
Proof.
  intros Hnull. unfold register_input_path.
  rewrite (bool_decide_eq_true_2 _ Hnull), CAF_ASSERT_holds, bind_ret.
  reflexivity.
Qed.

(** What [deregister_input_path] leaves of the registry, for a registered
    path: the registry without one entry for it. *)
Lemma deregister_input_path_remaining ptr m :
  ptr ≠ nullptr ->
  ptr ∈ inbound_paths_ m ->
  exists remaining,
    deregister_input_path ptr m = Done tt (set_inbound_paths remaining m) [] /\
    ptr :: remaining ≡ₚ inbound_paths_ m.
Proof.
  intros Hnull Hin.
  assert (Hsplit : exists front b, inbound_paths_ m = front ++ [b]).
  { destruct (inbound_paths_ m) as [|p0 ps0].
    - now apply elem_of_nil in Hin.
    - destruct (exists_last (l := p0 :: ps0)) as (front & b & ->);
        [discriminate|eauto]. }
  destruct Hsplit as (front & b & Hps). rewrite Hps in Hin |- *.
  rewrite (deregister_input_path_run ptr front b m Hnull Hps).
  destruct (decide (ptr = b)) as [->|Hne].
  - exists front. split; [reflexivity|]. now rewrite Permutation_cons_append.
  - apply elem_of_app in Hin as [Hin|Hin];
      [|apply list_elem_of_singleton in Hin; congruence].
    rewrite decide_True by exact Hin.
    eexists. split; [reflexivity|].
    pose proof (std_find_elem _ _ Hin) as Hlook.
    pose proof (lookup_lt_Some _ _ _ Hlook) as Hlt.
    rewrite insert_take_drop by exact Hlt.
    remember (std_find ptr front) as i eqn:Hi. clear Hi.
    transitivity ((take i front ++ ptr :: list.drop (S i) front) ++ [b]);
      [|now rewrite (take_drop_middle front i ptr Hlook)].
    rewrite <- app_assoc. simpl.
    rewrite (Permutation_middle (take i front)).
    apply Permutation_app_head.
    rewrite (Permutation_cons_append _ b). reflexivity.
Qed.

(** X1.  Delivering the ledger twice in a row: the second call finds the
    ledger empty and delivers nothing, whatever its message. *)
Theorem deliver_promises_twice (x y : message) (m : stream_manager) :
  (deliver_promises x;; deliver_promises y) m =
    Done tt (set_promises [] m) (map (fun p => Deliver p x) (promises_ m)).
Proof.
  unfold bind. rewrite !deliver_promises_run. simpl.
  now rewrite app_nil_r.
Qed.

(** X2.  Registering an inbound path and deregistering it right away gives
    back the manager as it was, whatever the registry held. *)
Theorem register_then_deregister (ptr : inbound_path_ptr) (m : stream_manager) :
  ptr ≠ nullptr ->
  (register_input_path ptr;; deregister_input_path ptr) m = Done tt m [].
Proof.
  intros Hnull. unfold bind. rewrite (register_input_path_run _ _ Hnull).
  rewrite (deregister_input_path_run ptr (inbound_paths_ m) ptr
             (set_inbound_paths (inbound_paths_ m ++ [ptr]) m) Hnull eq_refl).
  rewrite decide_True by reflexivity.
  simpl. f_equal. now destruct m.
Qed.

(** X3.  Deregistering a path that is not registered never returns: with the
    run-time checks an assertion fails (the one on the size for an empty
    registry, the one on the search otherwise), without them the behaviour
    is undefined. *)
Theorem deregister_unregistered (ptr : inbound_path_ptr) (m : stream_manager) :
  ptr ≠ nullptr ->
  ptr ∉ inbound_paths_ m ->
  deregister_input_path ptr m =
    if runtime_checks
    then AssertionFailed
           (if bool_decide (inbound_paths_ m = [])
            then "inbound_paths_.size() > 0"
            else "i != inbound_paths_.end()")
    else Undefined.
Proof.
  intros Hnull Hnin.
  destruct (inbound_paths_ m) as [|p0 ps0] eqn:Hps.
  - rewrite (deregister_input_path_empty ptr m Hnull Hps). reflexivity.
  - destruct (exists_last (l := p0 :: ps0)) as (front & b & Hsplit);
      [discriminate|].
    rewrite Hsplit in Hnin.
    apply not_elem_of_app in Hnin as [Hfront Hb].
    apply not_elem_of_cons in Hb as [Hb _].
    rewrite (deregister_input_path_run ptr front b m Hnull)
      by (now rewrite Hps).
    rewrite decide_False by exact Hb.
    rewrite decide_False by exact Hfront.
    reflexivity.
Qed.

(** X4.  A registry without duplicates stays without duplicates when a
    registered path is deregistered; the path is gone afterwards, every other
    path is still there, and the registry is one entry shorter. *)
Theorem deregister_keeps_NoDup (ptr : inbound_path_ptr) (m : stream_manager) :
  ptr ≠ nullptr ->
  ptr ∈ inbound_paths_ m ->
  NoDup (inbound_paths_ m) ->
  exists m',
    deregister_input_path ptr m = Done tt m' [] /\
    NoDup (inbound_paths_ m') /\
    (ptr ∉ inbound_paths_ m') /\
    (forall q, q ≠ ptr ->
               (q ∈ inbound_paths_ m' <-> q ∈ inbound_paths_ m)) /\
    S (length (inbound_paths_ m')) = length (inbound_paths_ m).
Proof.
  intros Hnull Hin Hnodup.
  destruct (deregister_input_path_remaining ptr m Hnull Hin)
    as (remaining & Hrun & Hperm).
  exists (set_inbound_paths remaining m). split; [exact Hrun|].
  cbn [inbound_paths_ set_inbound_paths].
  rewrite <- Hperm in Hnodup. apply NoDup_cons in Hnodup as [Hnot Hnd].
  repeat split; try assumption.
  - intros Hq. rewrite <- Hperm. apply elem_of_cons. now right.
  - intros Hq. rewrite <- Hperm in Hq.
    apply elem_of_cons in Hq as [->|Hq]; [congruence|exact Hq].
  - now rewrite <- Hperm.
Qed.

(** ** More of the manager: shutting down more than once *)

Lemma abort_leaves reason m :
  exists m' t,
    abort reason m = Done tt m' t /\
    promises_ m' = [] /\
    in_flight_promises_ m' = ∅ /\
    out_ m' = sc_abort reason (out_ m) /\
    pending_handshakes_ m' = pending_handshakes_ m /\
    inbound_paths_ m' = inbound_paths_ m /\
    List.filter is_deliver t =
      map (fun p => Deliver p (make_message reason)) (promises_ m) ++
      map (fun kvp : N * response_promise =>
             Deliver kvp.2 (make_message reason))
          (map_in_order (in_flight_promises_ m)).
Proof.
  pose proof (abort_run reason m) as Hrun. cbv zeta in Hrun.
  eexists _, _. split; [exact Hrun|].
  destruct (bool_decide (promises_ m ≠ []) ||
            bool_decide (in_flight_promises_ m ≠ ∅)) eqn:Howes.
  - repeat split. simpl.
    rewrite !List.filter_app.
    rewrite (filter_deliver_deliver (fun _ => make_message reason)).
    simpl. rewrite app_nil_r. f_equal.
    generalize (map_in_order (in_flight_promises_ m)). clear.
    intros l. induction l as [|kv l IH]; [reflexivity|].
    simpl. now rewrite IH.
  - apply orb_false_iff in Howes as [Hps Hifp].
    apply bool_decide_eq_false in Hps. apply bool_decide_eq_false in Hifp.
    apply dec_stable in Hps. apply dec_stable in Hifp.
    repeat split; try assumption.
    now rewrite Hps, Hifp, map_in_order_empty.
Qed.

Lemma abort_nothing_owed reason m :
  promises_ m = [] ->
  in_flight_promises_ m = ∅ ->
  abort reason m =
    Done tt (set_out (sc_abort reason (out_ m)) m)
      [OutAbort reason; Finalize reason; EraseInboundPathsLater (Some reason)].
Proof.
  intros Hps Hifp. pose proof (abort_run reason m) as Hrun. cbv zeta in Hrun.
  rewrite Hps, Hifp in Hrun.
  rewrite !bool_decide_eq_false_2 in Hrun by (intros H; now apply H).
  exact Hrun.
Qed.

Lemma stop_leaves m :
  exists m' t,
    stop m = Done tt m' t /\
    promises_ m' = [] /\
    in_flight_promises_ m' = in_flight_promises_ m /\
    out_ m' = sc_close (out_ m) /\
    List.filter is_deliver t = map (fun p => Deliver p none) (promises_ m).
Proof.
  rewrite stop_run. eexists _, _. split; [reflexivity|].
  destruct (bool_decide (promises_ m ≠ [])) eqn:Hps.
  - repeat split. simpl. apply (filter_deliver_deliver (fun _ => none)).
  - apply bool_decide_eq_false in Hps. apply dec_stable in Hps.
    repeat split; try assumption. now rewrite Hps.
Qed.

(** X5.  A second [abort] finds nothing owed: it builds no message and
    delivers nothing, but it aborts the scatterer, calls [finalize] and
    schedules the clean-up once more, with its own reason. *)
Theorem abort_twice (r1 r2 : error) (m : stream_manager) :
  exists m1 t1 m2,
    abort r1 m = Done tt m1 t1 /\
    abort r2 m1 =
      Done tt m2
        [OutAbort r2; Finalize r2; EraseInboundPathsLater (Some r2)] /\
    (abort r1;; abort r2) m =
      Done tt m2
        (t1 ++ [OutAbort r2; Finalize r2; EraseInboundPathsLater (Some r2)]) /\
    sc_status (out_ m2) = sc_aborted r2.
Proof.
  destruct (abort_leaves r1 m) as (m1 & t1 & Hrun & Hps & Hifp & _).
  exists m1, t1. eexists.
  pose proof (abort_nothing_owed r2 m1 Hps Hifp) as Hrun2.
  split; [exact Hrun|]. split; [exact Hrun2|].
  split; [|reflexivity].
  unfold bind. now rewrite Hrun, Hrun2.
Qed.

(** X6.  A second [stop] finds the ledger empty: it asks for no final result
    and delivers nothing, but it closes the scatterer, calls [finalize] and
    schedules the clean-up once more. *)
Theorem stop_twice (m : stream_manager) :
  exists m1 t1 m2,
    stop m = Done tt m1 t1 /\
    stop m1 =
      Done tt m2 [OutClose; Finalize no_error; EraseInboundPathsLater None] /\
    (stop;; stop) m =
      Done tt m2
        (t1 ++ [OutClose; Finalize no_error; EraseInboundPathsLater None]).
Proof.
  destruct (stop_leaves m) as (m1 & t1 & Hrun & Hps & _).
  exists m1, t1. eexists.
  assert (Hrun2 : stop m1 =
            Done tt (set_out (sc_close (out_ m1)) m1)
              [OutClose; Finalize no_error; EraseInboundPathsLater None]).
  { rewrite stop_run, Hps.
    rewrite !bool_decide_eq_false_2 by (intros H; now apply H).
    reflexivity. }
  split; [exact Hrun|]. split; [exact Hrun2|].
  unfold bind. now rewrite Hrun, Hrun2.
Qed.

(** X7.  [stop] followed by [abort]: every ledger promise gets the final
    result and nothing else, every in-flight promise gets the message with
    the reason of the abort, once, and both stores are empty afterwards. *)
Theorem stop_then_abort_deliveries (reason : error) (m : stream_manager) :
  exists m' t,
    (stop;; abort reason) m = Done tt m' t /\
    List.filter is_deliver t =
      map (fun p => Deliver p none) (promises_ m) ++
      map (fun kvp : N * response_promise =>
             Deliver kvp.2 (make_message reason))
          (map_in_order (in_flight_promises_ m)) /\
    promises_ m' = [] /\
    in_flight_promises_ m' = ∅.
Proof.
  destruct (stop_leaves m) as (m1 & t1 & Hrun1 & Hps1 & Hifp1 & _ & Hd1).
  destruct (abort_leaves reason m1)
    as (m2 & t2 & Hrun2 & Hps2 & Hifp2 & _ & _ & _ & Hd2).
  exists m2, (t1 ++ t2). split.
  { unfold bind. now rewrite Hrun1, Hrun2. }
  rewrite List.filter_app, Hd1, Hd2, Hps1, Hifp1.
  repeat split; assumption.
Qed.

(** ** More of the manager: handshakes and promises *)

Lemma send_handshake_null_run slot client fwd_stack mid m :
  send_handshake None slot client fwd_stack mid m =
    if runtime_checks then AssertionFailed "dest != nullptr" else Undefined.
Proof.
  unfold send_handshake, CAF_ASSERT. destruct runtime_checks; reflexivity.
Qed.

Lemma add_promise_run x m :
  add_promise x m =
    if runtime_checks && negb (sc_terminal (out_ m))
    then AssertionFailed "out().terminal()"
    else Done tt (set_promises (promises_ m ++ [x]) m) [].
Proof.
  unfold add_promise. rewrite bind_gets. unfold CAF_ASSERT.
  destruct runtime_checks, (sc_terminal (out_ m)); reflexivity.
Qed.

Lemma add_unsafe_outbound_path_run next slot origin stages mid m :
  add_unsafe_outbound_path next slot origin stages mid m =
    if runtime_checks && bool_decide (next = None)
    then AssertionFailed "next != nullptr"
    else if runtime_checks && sc_terminal (out_ m)
         then AssertionFailed "out().terminal() == false"
         else bind (send_handshake next slot origin stages mid)
                (fun _ => bind generate_messages (fun _ => ret tt)) m.
Proof.
  unfold add_unsafe_outbound_path, CAF_ASSERT.
  destruct runtime_checks; simpl.
  - destruct next as [n|]; simpl; [|reflexivity].
    rewrite bind_ret, bind_gets.
    destruct (sc_terminal (out_ m)); simpl; [reflexivity|].
    now rewrite bind_ret.
  - now rewrite bind_ret, bind_gets, bind_ret.
Qed.

(** X8.  A handshake for a slot without in-flight entry, answered by an
    open-ack whose sender slot is that slot and which gets its path: the
    counter of pending handshakes and the in-flight map are back where they
    were, and the promise recorded for the slot was never delivered. *)
Theorem handshake_then_open_ack (dest : actor_id) (slot r : stream_slot)
    (client : strong_actor_ptr) (fwd_stack : forwarding_stack)
    (mid : message_id) (x : ack_open) (m : stream_manager) :
  in_flight_promises_ m !! slot = None ->
  sc_paths (out_ m) !! r = None ->
  exists m' t,
    (send_handshake (Some dest) slot client fwd_stack mid;;
     handle_ack_open (mk_slots slot r) x) m = Done true m' t /\
    pending_handshakes_ m' = pending_handshakes_ m /\
    in_flight_promises_ m' = in_flight_promises_ m /\
    promises_ m' = promises_ m /\
    is_Some (sc_paths (out_ m') !! r) /\
    List.filter is_deliver t = [].
Proof.
  intros Hslot Hr. unfold bind. rewrite send_handshake_run.
  rewrite handle_ack_open_run.
  cbn [out_ set_in_flight_promises set_pending_handshakes receiver].
  rewrite Hr. eexists _, _. split; [reflexivity|].
  cbn [pending_handshakes_ in_flight_promises_ promises_ out_
       set_in_flight_promises set_pending_handshakes set_out sender].
  split; [lia|]. split.
  { unfold emplace. rewrite Hslot. rewrite delete_insert_eq.
    now apply delete_id. }
  split; [reflexivity|]. split; [|reflexivity].
  rewrite sc_emit_batches_lookup. cbn [sc_paths set_sc_paths].
  rewrite lookup_insert_eq. simpl. eauto.
Qed.

(** X9.  A handshake for a slot without in-flight entry, followed by [abort]:
    the promise recorded for the slot (own control identity, client,
    forwarding stack, message id) gets the message with the reason, and the
    in-flight map is empty afterwards. *)
Theorem handshake_then_abort (dest : actor_id) (slot : stream_slot)
    (client : strong_actor_ptr) (fwd_stack : forwarding_stack)
    (mid : message_id) (reason : error) (m : stream_manager) :
  in_flight_promises_ m !! slot = None ->
  exists m' t,
    (send_handshake (Some dest) slot client fwd_stack mid;; abort reason) m
      = Done tt m' t /\
    In (MakeMessage reason) t /\
    In (Deliver (mk_promise (self_ m) client fwd_stack mid)
          (make_message reason))
       (List.filter is_deliver t) /\
    in_flight_promises_ m' = ∅ /\
    pending_handshakes_ m' = pending_handshakes_ m + 1.
Proof.
  intros Hslot. unfold bind. rewrite send_handshake_run. cbv beta iota.
  set (m1 := set_in_flight_promises _ _).
  pose proof (abort_run reason m1) as Hrun. cbv zeta in Hrun.
  destruct (abort_leaves reason m1)
    as (m2 & t2 & Hrun2 & _ & Hifp & _ & Hpend & _ & Hdel).
  rewrite Hrun2. eexists _, _. split; [reflexivity|].
  assert (Hin : in_flight_promises_ m1 !! slot
                = Some (mk_promise (self_ m) client fwd_stack mid)).
  { subst m1. cbn [in_flight_promises_ set_in_flight_promises].
    unfold emplace. rewrite Hslot. apply lookup_insert_eq. }
  split.
  { apply in_or_app. right.
    rewrite Hrun in Hrun2.
    assert (Howes : bool_decide (promises_ m1 ≠ []) ||
                    bool_decide (in_flight_promises_ m1 ≠ ∅) = true).
    { apply orb_true_iff. right. apply bool_decide_eq_true_2.
      intros He. rewrite He in Hin. now rewrite lookup_empty in Hin. }
    rewrite Howes in Hrun2. injection Hrun2 as _ <-.
    now left. }
  split.
  { rewrite List.filter_app. simpl. rewrite Hdel.
    apply in_or_app. right.
    apply in_map_iff.
    exists (slot, mk_promise (self_ m) client fwd_stack mid).
    split; [reflexivity|].
    apply list_elem_of_In, map_in_order_lookup. exact Hin. }
  split; [exact Hifp|].
  rewrite Hpend. reflexivity.
Qed.

(** X10.  A handshake is never enqueued at a null destination: with the
    run-time checks the assertion on [dest] fails before anything is
    touched, without them the call on the null handle is undefined. *)
Theorem send_handshake_null_dest (slot : stream_slot)
    (client : strong_actor_ptr) (fwd_stack : forwarding_stack)
    (mid : message_id) (m : stream_manager) :
  send_handshake None slot client fwd_stack mid m =
    (if runtime_checks then AssertionFailed "dest != nullptr" else Undefined)
  /\
  send_handshake_anon None slot m =
    (if runtime_checks then AssertionFailed "dest != nullptr" else Undefined).
Proof.
  split; [|unfold send_handshake_anon]; apply send_handshake_null_run.
Qed.

(** X11.  A promise added to the ledger of a terminal manager is served by
    [stop] after the promises that were there before it, with the final
    result. *)
Theorem add_promise_then_stop (x : response_promise) (m : stream_manager) :
  sc_terminal (out_ m) = true ->
  exists m' t,
    (add_promise x;; stop) m = Done tt m' t /\
    List.filter is_deliver t =
      map (fun p => Deliver p none) (promises_ m) ++ [Deliver x none] /\
    In MakeFinalResult t /\
    promises_ m' = [].
Proof.
  intros Hterm. unfold bind. rewrite add_promise_run, Hterm, andb_false_r.
  cbv beta iota.
  set (m1 := set_promises _ m).
  destruct (stop_leaves m1) as (m2 & t2 & Hrun & Hps & _ & _ & Hdel).
  pose proof (stop_run m1) as Hrun'. rewrite Hrun in Hrun'.
  rewrite Hrun. eexists _, _. split; [reflexivity|].
  simpl. rewrite Hdel. subst m1. cbn [promises_ set_promises].
  split; [now rewrite map_app|]. split; [|exact Hps].
  injection Hrun' as _ ->.
  cbn [promises_ set_promises].
  rewrite bool_decide_eq_true_2 by (now destruct (promises_ m)).
  simpl. auto.
Qed.

(** X13.  Forwarding a handshake through [add_unsafe_outbound_path], on a
    manager whose scatterer is no terminal: what [send_handshake] does for
    the next stage, and then one call of [generate_messages], whose answer
    is dropped. *)
Theorem add_unsafe_outbound_path_forwards (next : actor_id)
    (slot : stream_slot) (origin : strong_actor_ptr)
    (stages : forwarding_stack) (mid : message_id) (m : stream_manager) :
  sc_terminal (out_ m) = false ->
  exists m' t,
    send_handshake (Some next) slot origin stages mid m = Done tt m' t /\
    add_unsafe_outbound_path (Some next) slot origin stages mid m =
      Done tt m' (t ++ [GenerateMessages]) /\
    pending_handshakes_ m' = pending_handshakes_ m + 1 /\
    is_Some (in_flight_promises_ m' !! slot) /\
    promises_ m' = promises_ m.
Proof.
  intros Hterm. rewrite add_unsafe_outbound_path_run, Hterm.
  rewrite bool_decide_eq_false_2 by discriminate.
  rewrite !andb_false_r. unfold bind. rewrite send_handshake_run.
  eexists _, _. split; [reflexivity|]. split; [reflexivity|].
  cbn [pending_handshakes_ in_flight_promises_ promises_
       set_in_flight_promises set_pending_handshakes].
  split; [reflexivity|]. split; [|reflexivity].
  unfold emplace. destruct (in_flight_promises_ m !! slot) eqn:Hs.
  - rewrite Hs. eauto.
  - rewrite lookup_insert_eq. eauto.
Qed.

(** ** More of the manager: upstream messages that come twice or late *)

(** X14.  A second forced drop for the same slots finds no path: it asks the
    scatterer again, removes nothing and does not abort again. *)
Theorem forced_drop_twice (slots : stream_slots) (x y : forced_drop)
    (m : stream_manager) :
  exists m1 t1,
    handle_forced_drop slots x m = Done tt m1 t1 /\
    sc_paths (out_ m1) !! receiver slots = None /\
    handle_forced_drop slots y m1 =
      Done tt m1 [OutRemovePath (receiver slots) (fd_reason y) true].
Proof.
  rewrite handle_forced_drop_run.
  destruct (sc_paths (out_ m) !! receiver slots) as [p|] eqn:Hp.
  - set (m0 := set_out _ m).
    destruct (abort_leaves (fd_reason x) m0)
      as (m1 & t1 & Hrun & _ & _ & Hout & _).
    unfold bind, emit. rewrite Hrun. simpl.
    assert (Hgone : sc_paths (out_ m1) !! receiver slots = None).
    { rewrite Hout. subst m0. simpl. apply lookup_delete_eq. }
    eexists _, _. split; [reflexivity|]. split; [exact Hgone|].
    now rewrite handle_forced_drop_run, Hgone.
  - exists m, [OutRemovePath (receiver slots) (fd_reason x) true].
    split; [reflexivity|]. split; [exact Hp|].
    now rewrite handle_forced_drop_run, Hp.
Qed.

(** X15.  A batch-ack that arrives after the drop for the same slots is
    ignored: whatever was at the receiver slot, after the drop handler the
    batch-ack handler changes nothing and emits nothing. *)
Theorem ack_batch_after_drop (slots : stream_slots) (d : drop)
    (m : stream_manager) :
  exists m1 t1,
    handle_drop slots d m = Done tt m1 t1 /\
    forall x : ack_batch, handle_ack_batch slots x m1 = Done tt m1 [].
Proof.
  rewrite handle_drop_run.
  destruct (sc_paths (out_ m) !! receiver slots) as [p|] eqn:Hp.
  - eexists _, _. split; [reflexivity|]. intros x.
    rewrite handle_ack_batch_run. simpl. now rewrite lookup_delete_eq.
  - eexists _, _. split; [reflexivity|]. intros x.
    now rewrite handle_ack_batch_run, Hp.
Qed.

(** X16.  An open-ack repeated for the same slots is refused: whether the
    first one got its path or not, the second answers [false], leaves the
    manager as it is, and does not touch [pending_handshakes_] again. *)
Theorem open_ack_twice (slots : stream_slots) (x y : ack_open)
    (m : stream_manager) :
  exists ok m1 t1,
    handle_ack_open slots x m = Done ok m1 t1 /\
    handle_ack_open slots y m1 =
      Done false m1 [OutAddPath (invert slots) (rebind_to y)].
Proof.
  rewrite handle_ack_open_run.
  destruct (sc_paths (out_ m) !! receiver slots) as [p|] eqn:Hp.
  - eexists _, _, _. split; [reflexivity|].
    now rewrite handle_ack_open_run, Hp.
  - cbv zeta. eexists _, _, _. split; [reflexivity|].
    rewrite handle_ack_open_run.
    cbn [out_ set_in_flight_promises set_out set_pending_handshakes].
    rewrite sc_emit_batches_lookup. cbn [sc_paths set_sc_paths].
    now rewrite lookup_insert_eq.
Qed.


(** X18.  A forced close aborts the manager with the reason it carries, from
    whichever inbound path it came: both promise stores are empty afterwards
    and the scatterer is aborted with that reason.  A batch handled by the
    base class only logs a warning and a close does nothing; both leave the
    manager as it is. *)
Theorem downstream_handlers (path path' : inbound_path_ptr)
    (x : forced_close) (b : batch) (c : close) (m : stream_manager) :
  handle_forced_close path x m = handle_forced_close path' x m /\
  (exists m' t,
     handle_forced_close path x m = Done tt m' t /\
     abort (fc_reason x) m = Done tt m' t /\
     promises_ m' = [] /\
     in_flight_promises_ m' = ∅ /\
     sc_status (out_ m') = sc_aborted (fc_reason x) /\
     In (Finalize (fc_reason x)) t) /\
  handle_batch path b m =
    Done tt m [LogWarning "unimplemented base handler for batches called"] /\
  handle_close path c m = Done tt m [].
Proof.
  split; [reflexivity|]. split; [|split; reflexivity].
  unfold handle_forced_close.
  pose proof (abort_run (fc_reason x) m) as Hrun. cbv zeta in Hrun.
  destruct (abort_leaves (fc_reason x) m)
    as (m' & t & Hab & Hps & Hifp & Hout & _).
  exists m', t. repeat split; try assumption.
  - now rewrite Hout.
  - rewrite Hrun in Hab. injection Hab as _ <-.
    apply in_or_app. right. simpl. auto.
Qed.

(** X19.  [push] always ends after one round, whatever the bound on the
    rounds: it asks the scatterer to emit once and [generate_messages] once,
    and it leaves the manager's own fields as they are. *)
Theorem push_one_round (n : nat) (m : stream_manager) :
  exists m',
    push_rounds (S n) m =
      Done tt m'
        [OutEmitBatches; BatchesEmitted (sc_credit_used (out_ m));
         GenerateMessages] /\
    out_ m' = sc_emit_batches (out_ m) /\
    pending_handshakes_ m' = pending_handshakes_ m /\
    promises_ m' = promises_ m /\
    in_flight_promises_ m' = in_flight_promises_ m /\
    inbound_paths_ m' = inbound_paths_ m.
Proof. eexists. split; [reflexivity|]. repeat split. Qed.

(** X20.  A batch-ack writes to the path of its receiver slot only: on every
    other slot the desired batch size and [next_ack_id] are what they were,
    and no path appears or disappears. *)
Theorem ack_batch_other_paths (slots : stream_slots) (x : ack_batch)
    (m : stream_manager) (slot : stream_slot) :
  slot ≠ receiver slots ->
  exists m' t,
    handle_ack_batch slots x m = Done tt m' t /\
    desired_batch_size <$> sc_paths (out_ m') !! slot =
      desired_batch_size <$> sc_paths (out_ m) !! slot /\
    next_ack_id <$> sc_paths (out_ m') !! slot =
      next_ack_id <$> sc_paths (out_ m) !! slot /\
    op_slots <$> sc_paths (out_ m') !! slot =
      op_slots <$> sc_paths (out_ m) !! slot.
Proof.
  intros Hne. rewrite handle_ack_batch_run.
  destruct (sc_paths (out_ m) !! receiver slots) as [p|] eqn:Hp.
  - cbv zeta. eexists _, _. split; [reflexivity|].
    cbn [out_ set_out]. rewrite sc_emit_batches_lookup.
    cbn [sc_paths set_sc_paths].
    rewrite lookup_insert_ne by congruence.
    destruct (sc_paths (out_ m) !! slot); repeat split.
  - eexists _, _. split; [reflexivity|]. repeat split.
Qed.

End Manager.

(** ** The claims at concrete inputs *)

(** C2, as stated, fails: a freshly constructed manager has sent no handshake
    and holds no in-flight promise, and an open-ack for slots (7, 3) still
    gets its path and takes [pending_handshakes_] to -1. *)
Lemma pending_handshakes_negative :
  in_flight_promises_ example_fresh !! 7%N = None /\
  final_state
    (run_handshake_calls true example_new_path example_buffered
       [HandleAckOpen (mk_slots 7 3) (mk_ack_open (Some 9%N) 10 2)]
       example_fresh)
  = Some
      (set_out
         (set_sc_paths
            {[ 3%N := mk_outbound_path (mk_slots 3 7) (Some 9%N) 6 2 0 ]}
            example_scatterer)
         (set_pending_handshakes (-1) example_fresh)) /\
  ~ (forall m',
       final_state
         (run_handshake_calls true example_new_path example_buffered
            [HandleAckOpen (mk_slots 7 3) (mk_ack_open (Some 9%N) 10 2)]
            example_fresh) = Some m' ->
       0 <= pending_handshakes_ m').
Proof.
  split; [reflexivity|].
  split; [vm_compute; reflexivity|].
  intros H.
  specialize (H _ eq_refl). vm_compute in H. now apply H.
Qed.

(** C8, as stated, fails: removing the same path a second time is not a
    no-op.  With the run-time checks the assertion fails; without them the
    call swaps through [end()]. *)
Lemma deregister_twice_fails :
  final_state (deregister_input_path true 8 example_busy)
    = Some (set_inbound_paths [5%N; 6%N] example_busy) /\
  (deregister_input_path true 8;; deregister_input_path true 8)%mgr
     example_busy
    = AssertionFailed "i != inbound_paths_.end()" /\
  (deregister_input_path false 8;; deregister_input_path false 8)%mgr
     example_busy
    = Undefined.
Proof. repeat split. Qed.

(** C6 at a concrete run: an open-ack with initial demand 10, then batch-acks
    granting 5 and 1. *)
Lemma handle_ack_batch_spec_witness :
  sc_paths (out_ example_fresh) !! receiver (mk_slots 7 3) = None /\
  exists m1 t1 m2 t2 p,
    handle_ack_open example_new_path example_buffered (mk_slots 7 3)
      (mk_ack_open (Some 9%N) 10 2) example_fresh = Done true m1 t1 /\
    run_ack_batches example_buffered (mk_slots 7 3)
      [mk_ack_batch 5 3 41; mk_ack_batch 1 4 42] m1 = Done tt m2 t2 /\
    sc_paths (out_ m2) !! receiver (mk_slots 7 3) = Some p /\
    open_credit p =
      initial_demand (mk_ack_open (Some 9%N) 10 2)
      + total_new_capacity [mk_ack_batch 5 3 41; mk_ack_batch 1 4 42]
      - credit_used_on (receiver (mk_slots 7 3)) (t1 ++ t2) /\
    (forall y,
       last [mk_ack_batch 5 3 41; mk_ack_batch 1 4 42] = Some y ->
       next_ack_id p = acknowledged_id y + 1 /\
       desired_batch_size p = ab_desired_batch_size y).
Proof.
  split; [reflexivity|].
  apply (proj2 (handle_ack_batch_spec example_new_path example_buffered)).
  reflexivity.
Defined.

(** C8 at a concrete registry: removing the first of three paths. *)
Lemma deregister_input_path_present_witness :
  5%N ≠ nullptr /\
  5%N ∈ inbound_paths_ example_busy /\
  exists front b remaining,
    inbound_paths_ example_busy = front ++ [b] /\
    remaining =
      (if decide (5%N = b) then front
       else <[std_find 5 front := b]> front) /\
    deregister_input_path true 5 example_busy
      = Done tt (set_inbound_paths remaining example_busy) [] /\
    5%N :: remaining ≡ₚ inbound_paths_ example_busy.
Proof.
  assert (Hnull : 5%N ≠ nullptr) by (unfold nullptr; lia).
  assert (Hin : 5%N ∈ inbound_paths_ example_busy)
    by (apply (bool_decide_eq_true_1 (5%N ∈ inbound_paths_ example_busy));
        vm_compute; reflexivity).
  split; [exact Hnull|]. split; [exact Hin|].
  exact (deregister_input_path_present true 5 example_busy Hnull Hin).
Defined.

(** C10 at a concrete state: a second handshake for slot 7. *)
Lemma send_handshake_existing_slot_witness :
  in_flight_promises_ example_busy !! 7%N = Some (example_promise 21) /\
  exists m' t,
    send_handshake true (Some 9%N) 7 (Some 22%N) [] 12 example_busy
      = Done tt m' t /\
    in_flight_promises_ m' = in_flight_promises_ example_busy /\
    in_flight_promises_ m' !! 7%N = Some (example_promise 21) /\
    NoDup (map fst (map_to_list (in_flight_promises_ m'))) /\
    pending_handshakes_ m' = pending_handshakes_ example_busy + 1 /\
    t = [MakeHandshake 7;
         LogError "stream_manager::make_handshake called";
         Enqueue 9
           (make_mailbox_element (Some 22%N) 12 []
              (mk_open_stream_msg 7 none (self_ example_busy) (Some 9%N)
                 (priority_ example_busy)))].
Proof.
  split; [reflexivity|].
  apply (send_handshake_existing_slot true 9 7 (Some 22%N) [] 12 example_busy
           (example_promise 21)).
  reflexivity.
Defined.

(** The scenarios of the specification. *)

(** A handshake for slot 7, then an open-ack for slots (7, 3) with initial
    demand 10 and batch size 2. *)
Example scenario_open_ack :
  (send_handshake true (Some 9%N) 7 (Some 21%N) [] 11;;
   handle_ack_open example_new_path (fun _ _ => 0) (mk_slots 7 3)
     (mk_ack_open (Some 9%N) 10 2))%mgr example_fresh
  = Done true
      (set_out
         (set_sc_paths
            {[ 3%N := mk_outbound_path (mk_slots 3 7) (Some 9%N) 10 2 0 ]}
            example_scatterer)
         example_fresh)
      [MakeHandshake 7; LogError "stream_manager::make_handshake called";
       Enqueue 9
         (make_mailbox_element (Some 21%N) 11 []
            (mk_open_stream_msg 7 none 1 (Some 9%N) normal));
       OutAddPath (mk_slots 3 7) (Some 9%N); OutEmitBatches;
       BatchesEmitted {[ 3%N := 0 ]}; GenerateMessages].
Proof. vm_compute. reflexivity. Qed.

(** [abort("network failure")] with one ledger promise and one in-flight
    promise. *)
Example scenario_abort :
  trace_of (abort (make_error "network failure") example_busy)
  = [MakeMessage (make_error "network failure");
     Deliver (example_promise 20) (make_message (make_error "network failure"));
     Deliver (example_promise 21) (make_message (make_error "network failure"));
     OutAbort (make_error "network failure");
     Finalize (make_error "network failure");
     EraseInboundPathsLater (Some (make_error "network failure"))].
Proof. vm_compute. reflexivity. Qed.

(** [stop()] with no promise owed. *)
Example scenario_stop :
  stop example_fresh
  = Done tt (set_out (sc_close example_scatterer) example_fresh)
      [OutClose; Finalize no_error; EraseInboundPathsLater None].
Proof. reflexivity. Qed.

(** A drop for the live path at slot 3: one call on the scatterer, nothing
    sent to the remote end. *)
Example scenario_drop_live_path :
  handle_drop (mk_slots 7 3) mk_drop example_busy
  = Done tt (set_out example_scatterer example_busy)
      [OutRemovePath 3 no_error true].
Proof. vm_compute. reflexivity. Qed.

(** A forced drop for a slot without a path. *)
Example scenario_forced_drop_no_path :
  handle_forced_drop (mk_slots 7 4) (mk_forced_drop (make_error "gone"))
    example_busy
  = Done tt example_busy [OutRemovePath 4 (make_error "gone") true].
Proof. reflexivity. Qed.

(** ** More of the manager, at concrete inputs *)

Lemma register_then_deregister_witness :
  9%N ≠ nullptr /\
  (register_input_path true 9;; deregister_input_path true 9)%mgr example_busy
    = Done tt example_busy [].
Proof.
  assert (Hnull : 9%N ≠ nullptr) by (unfold nullptr; lia).
  split; [exact Hnull|].
  exact (register_then_deregister true 9 example_busy Hnull).
Defined.

Lemma deregister_unregistered_witness :
  9%N ≠ nullptr /\
  (9%N ∉ inbound_paths_ example_busy) /\
  deregister_input_path false 9 example_busy = Undefined.
Proof.
  assert (Hnull : 9%N ≠ nullptr) by (unfold nullptr; lia).
  assert (Hnin : 9%N ∉ inbound_paths_ example_busy).
  { apply (bool_decide_eq_true_1 (9%N ∉ inbound_paths_ example_busy)).
    vm_compute. reflexivity. }
  split; [exact Hnull|]. split; [exact Hnin|].
  exact (deregister_unregistered false 9 example_busy Hnull Hnin).
Defined.

Lemma deregister_keeps_NoDup_witness :
  6%N ≠ nullptr /\
  6%N ∈ inbound_paths_ example_busy /\
  NoDup (inbound_paths_ example_busy) /\
  exists m',
    deregister_input_path true 6 example_busy = Done tt m' [] /\
    NoDup (inbound_paths_ m') /\
    (6%N ∉ inbound_paths_ m') /\
    (forall q, q ≠ 6%N ->
               (q ∈ inbound_paths_ m' <-> q ∈ inbound_paths_ example_busy)) /\
    S (length (inbound_paths_ m')) = length (inbound_paths_ example_busy).
Proof.
  assert (Hnull : 6%N ≠ nullptr) by (unfold nullptr; lia).
  assert (Hin : 6%N ∈ inbound_paths_ example_busy).
  { apply (bool_decide_eq_true_1 (6%N ∈ inbound_paths_ example_busy)).
    vm_compute. reflexivity. }
  assert (Hnd : NoDup (inbound_paths_ example_busy)).
  { apply (bool_decide_eq_true_1 (NoDup (inbound_paths_ example_busy))).
    vm_compute. reflexivity. }
  split; [exact Hnull|]. split; [exact Hin|]. split; [exact Hnd|].
  exact (deregister_keeps_NoDup true 6 example_busy Hnull Hin Hnd).
Defined.

(** X12.  With the run-time checks, no manager takes both a ledger promise
    and a forwarded handshake: [add_promise] asserts a terminal scatterer,
    [add_unsafe_outbound_path] asserts the opposite, and one of the two
    fails. *)
Theorem add_promise_or_forward (x : response_promise)
    (next : strong_actor_ptr) (slot : stream_slot) (origin : strong_actor_ptr)
    (stages : forwarding_stack) (mid : message_id) (m : stream_manager) :
  add_promise true x m = AssertionFailed "out().terminal()" \/
  (exists what,
     add_unsafe_outbound_path true next slot origin stages mid m
       = AssertionFailed what).
Proof.
  rewrite add_promise_run, add_unsafe_outbound_path_run.
  destruct (sc_terminal (out_ m)); simpl.
  - right. destruct (bool_decide (next = None)); eauto.
  - now left.
Qed.

Lemma handshake_then_open_ack_witness :
  in_flight_promises_ example_fresh !! 7%N = None /\
  sc_paths (out_ example_fresh) !! 3%N = None /\
  exists m' t,
    (send_handshake true (Some 9%N) 7 (Some 21%N) [] 11;;
     handle_ack_open example_new_path example_buffered (mk_slots 7 3)
       (mk_ack_open (Some 9%N) 10 2))%mgr example_fresh = Done true m' t /\
    pending_handshakes_ m' = pending_handshakes_ example_fresh /\
    in_flight_promises_ m' = in_flight_promises_ example_fresh /\
    promises_ m' = promises_ example_fresh /\
    is_Some (sc_paths (out_ m') !! 3%N) /\
    List.filter is_deliver t = [].
Proof.
  split; [reflexivity|]. split; [reflexivity|].
  apply (handshake_then_open_ack true example_new_path example_buffered
           9 7 3 (Some 21%N) [] 11 (mk_ack_open (Some 9%N) 10 2)
           example_fresh); reflexivity.
Defined.

Lemma handshake_then_abort_witness :
  in_flight_promises_ example_busy !! 4%N = None /\
  exists m' t,
    (send_handshake true (Some 9%N) 4 (Some 22%N) [] 12;;
     abort (make_error "network failure"))%mgr example_busy = Done tt m' t /\
    In (MakeMessage (make_error "network failure")) t /\
    In (Deliver (mk_promise (self_ example_busy) (Some 22%N) [] 12)
          (make_message (make_error "network failure")))
       (List.filter is_deliver t) /\
    in_flight_promises_ m' = ∅ /\
    pending_handshakes_ m' = pending_handshakes_ example_busy + 1.
Proof.
  split; [reflexivity|].
  apply (handshake_then_abort true 9 4 (Some 22%N) [] 12
           (make_error "network failure") example_busy).
  reflexivity.
Defined.

Lemma add_promise_then_stop_witness :
  sc_terminal (out_ example_busy) = true /\
  exists m' t,
    (add_promise true (example_promise 30);; stop)%mgr example_busy
      = Done tt m' t /\
    List.filter is_deliver t =
      map (fun p => Deliver p none) (promises_ example_busy)
      ++ [Deliver (example_promise 30) none] /\
    In MakeFinalResult t /\
    promises_ m' = [].
Proof.
  split; [reflexivity|].
  apply (add_promise_then_stop true (example_promise 30) example_busy).
  reflexivity.
Defined.

Lemma add_unsafe_outbound_path_forwards_witness :
  let m :=
    set_out (mk_scatterer ∅ false sc_running) example_fresh in
  sc_terminal (out_ m) = false /\
  exists m' t,
    send_handshake true (Some 9%N) 7 None [] 0 m = Done tt m' t /\
    add_unsafe_outbound_path true (Some 9%N) 7 None [] 0 m =
      Done tt m' (t ++ [GenerateMessages]) /\
    pending_handshakes_ m' = pending_handshakes_ m + 1 /\
    is_Some (in_flight_promises_ m' !! 7%N) /\
    promises_ m' = promises_ m.
Proof.
  split; [reflexivity|].
  apply (add_unsafe_outbound_path_forwards true 9 7 None [] 0).
  reflexivity.
Defined.

Lemma ack_batch_other_paths_witness :
  let m :=
    set_out
      (set_sc_paths
         (<[4%N := set_next_ack_id 9 example_path]> {[ 3%N := example_path ]})
         example_scatterer)
      example_busy in
  4%N ≠ receiver (mk_slots 7 3) /\
  exists m' t,
    handle_ack_batch example_buffered (mk_slots 7 3) (mk_ack_batch 5 3 41) m
      = Done tt m' t /\
    desired_batch_size <$> sc_paths (out_ m') !! 4%N =
      desired_batch_size <$> sc_paths (out_ m) !! 4%N /\
    next_ack_id <$> sc_paths (out_ m') !! 4%N =
      next_ack_id <$> sc_paths (out_ m) !! 4%N /\
    op_slots <$> sc_paths (out_ m') !! 4%N =
      op_slots <$> sc_paths (out_ m) !! 4%N.
Proof.
  assert (Hne : 4%N ≠ receiver (mk_slots 7 3)) by (simpl; lia).
  split; [exact Hne|].
  exact (ack_batch_other_paths example_buffered (mk_slots 7 3)
           (mk_ack_batch 5 3 41) _ 4 Hne).
Defined.
